(** * The MindLink add-in client: a shallow embedding

    The development follows the TypeScript sources of the add-in client:

    - the helpers [merge] and [any],
    - the class [MulticastDispatcher] (module [MulticastDispatcher]),
    - the class [PostMessageAddInClient] (module [PostMessageAddInClient]),
    - the class [DirectAddInClient] with its [ActiveXWrapper] (module
      [DirectAddInClient]),
    - the selector [createAddInClient],
    - the shim that copies [window.external] to [window.addins].

    JavaScript values are embedded as the inductive type [JsVal]; the
    operators the sources use on them ([||], [&&], [!!], [===], property
    reads, [JSON.parse], [JSON.stringify]) are functions on [JsVal].  Code
    that mutates an object threads the object explicitly; code that can
    throw returns a [Completion].

    Conventions of the embedding.

    - Objects used as dictionaries ([handlers], [callbacks]) are finite maps
      of their own properties.  The sources read them by plain property
      access, which also finds the members every object inherits from
      [Object.prototype] (a name such as ["constructor"]).  A read of
      [handlers] gives the inherited member where the name has no list, and
      the methods of the dispatcher go on with it as the source does.  A
      read of [callbacks] that finds an inherited member finds no [success]
      and no [failure] in it and deletes nothing, which is what the code
      does when it finds no pending call; the two cases are one in the
      model.
    - A value used as a property key, or as the text given to [JSON.parse],
      is converted to a string; the conversion throws for an object with a
      member [toString] of its own.
    - Functions supplied by the add-in (handlers, continuations) and by the
      host are external code: a function is a reference, its behaviour is
      given by [fn_body], and every application made by the library is
      recorded in the realm.  External code that calls back into the client
      while it runs is not modelled.
    - Numbers are doubles, each held by its exact value: [JSON.parse] rounds
      a literal to the nearest double and [String] writes the shortest
      digits that denote the double.  [NaN] is not modelled, and neither is
      the sign of zero, which nothing in the sources can tell.
    - A string is held by the bytes of its UTF-8 form, a surrogate that is
      not half of a pair being written like any other code unit. *)

From Stdlib Require Import QArith Ascii String.
From stdpp Require Import gmap strings list pretty.

Local Open Scope string_scope.
Local Open Scope list_scope.
Local Open Scope Z_scope.

(** ** JavaScript values *)

(** A function object.  [UserFn] is code of the add-in or of the host;
    [ResolveFn p] and [RejectFn p] are the two functions the platform hands to
    the executor of promise [p]. *)
Inductive FnRef : Type :=
| UserFn (n : nat)
| ResolveFn (p : nat)
| RejectFn (p : nat).

#[global] Instance FnRef_eq_dec : EqDecision FnRef.
Proof. solve_decision. Defined.

(** Structured data ([VArr], [VObj]) is held by content, with the own
    properties of an object in insertion order.  An object whose identity
    matters (a scope) is a [VRef]; [VPromise p] is the promise object [p].
    [VNum q] is the finite double of value [q], [VInfinity] an infinite
    one. *)
#[local] Unset Elimination Schemes.
Inductive JsVal : Type :=
| VUndefined
| VNull
| VBool (b : bool)
| VNum (q : Q)
| VInfinity (negative : bool)
| VStr (s : string)
| VArr (items : list JsVal)
| VObj (props : list (string * JsVal))
| VFun (f : FnRef)
| VRef (a : nat)
| VPromise (p : nat).
#[local] Set Elimination Schemes.

(** [!!v] *)
Definition truthy (v : JsVal) : bool :=
  match v with
  | VUndefined | VNull => false
  | VBool b => b
  | VNum q => negb (Qeq_bool q 0)
  | VInfinity _ => true
  | VStr s => negb (String.eqb s "")
  | VArr _ | VObj _ | VFun _ | VRef _ | VPromise _ => true
  end.

(** [a || b] *)
Definition js_or (a b : JsVal) : JsVal := if truthy a then a else b.

(** [a && b] *)
Definition js_and (a b : JsVal) : JsVal := if truthy a then b else a.

(** [a === b].  Primitives compare by value, functions and [VRef] objects by
    identity; data held by content has no identity to compare. *)
Definition strict_equals (a b : JsVal) : bool :=
  match a, b with
  | VUndefined, VUndefined => true
  | VNull, VNull => true
  | VBool x, VBool y => Bool.eqb x y
  | VNum x, VNum y => Qeq_bool x y
  | VInfinity x, VInfinity y => Bool.eqb x y
  | VStr x, VStr y => String.eqb x y
  | VFun f, VFun g => bool_decide (f = g)
  | VRef x, VRef y => Nat.eqb x y
  | VPromise x, VPromise y => Nat.eqb x y
  | _, _ => false
  end.

(** What a piece of code can throw. *)
Inductive Exception : Type :=
| TypeError
| SyntaxError
| Thrown (v : JsVal).

(** The outcome of running a piece of code. *)
Inductive Completion (A : Type) : Type :=
| Normal (a : A)
| Abrupt (e : Exception).
Arguments Normal {A} a.
Arguments Abrupt {A} e.

(** Own properties of an object literal. *)
Fixpoint assoc_get (props : list (string * JsVal)) (k : string) : JsVal :=
  match props with
  | [] => VUndefined
  | (k', v) :: rest => if String.eqb k' k then v else assoc_get rest k
  end.

(** [target[k] = v]: an existing property keeps its place. *)
Fixpoint assoc_set (props : list (string * JsVal)) (k : string) (v : JsVal)
  : list (string * JsVal) :=
  match props with
  | [] => [(k, v)]
  | (k', v') :: rest =>
      if String.eqb k' k then (k', v) :: rest else (k', v') :: assoc_set rest k v
  end.

(** [v.k] for the property names the library reads ([event], [id], [name],
    [args], [result], [success], [GetChatRoom], ...): reading a property of
    [undefined] or [null] throws; only an object literal has such a member. *)
Definition get_prop (v : JsVal) (k : string) : Completion JsVal :=
  match v with
  | VUndefined | VNull => Abrupt TypeError
  | VObj props => Normal (assoc_get props k)
  | _ => Normal VUndefined
  end.

(** [v.k] where [v] is already known to be truthy. *)
Definition js_get (v : JsVal) (k : string) : JsVal :=
  match v with
  | VObj props => assoc_get props k
  | _ => VUndefined
  end.

(** ** Numbers and property keys *)

Definition digit_char (d : Z) : ascii := ascii_of_nat (Z.to_nat (48 + d)).

(** [mant * 10 ^ e] *)
Definition decimal_value (mant e : Z) : Q :=
  if 0 <=? e then Qred (mant * 10 ^ e # 1)
  else Qred (mant # Z.to_pos (10 ^ (- e))).

(** [n / d] rounded to the nearest integer, a tie going to the even one
    ([0 <= n], [0 < d]). *)
Definition round_half_even (n d : Z) : Z :=
  let q := n / d in
  let r := n mod d in
  if 2 * r <? d then q
  else if d <? 2 * r then q + 1
  else if Z.even q then q else q + 1.

(** The integer [e] with [2 ^ e <= n / d < 2 ^ (e + 1)] ([0 < n], [0 < d]). *)
Definition floor_log2 (n d : Z) : Z :=
  let e := Z.log2 n - Z.log2 d in
  if (if 0 <=? e then d * 2 ^ e <=? n else d <=? n * 2 ^ (- e)) then e else e - 1.

(** The double nearest to [n / d] ([0 < n], [0 < d]): 53 significant bits,
    exponents from [-1022] (below which the spacing stays that of the
    subnormal numbers) to [1023]; [None] when the result is infinite. *)
Definition nearest_double (n d : Z) : option Q :=
  let e := Z.max (floor_log2 n d) (-1022) in
  let m := if e <=? 52 then round_half_even (n * 2 ^ (52 - e)) d
           else round_half_even n (d * 2 ^ (e - 52)) in
  if (1024 <=? e) || ((e =? 1023) && (2 ^ 53 <=? m)) then None
  else if e <=? 52 then Some (Qred (m # Z.to_pos (2 ^ (52 - e))))
  else Some (m * 2 ^ (e - 52) # 1).

(** The number value of the rational [q]. *)
Definition round_double (q : Q) : option Q :=
  let n := Qnum q in
  let d := Z.pos (Qden q) in
  if n =? 0 then Some 0%Q
  else if 0 <? n then nearest_double n d
  else option_map Qopp (nearest_double (- n) d).

(** The [n] with [10 ^ (n - 1) <= a / b < 10 ^ n] ([0 < a], [0 < b]). *)
Fixpoint small_magnitude (fuel : nat) (a b : Z) (n : Z) : Z :=
  match fuel with
  | O => n
  | S fuel' => if b <=? a then n else small_magnitude fuel' (a * 10) b (n - 1)
  end.

Definition decimal_magnitude (a b : Z) : Z :=
  if b <=? a then Z.of_nat (String.length (pretty (Z.to_N (a / b))))
  else small_magnitude 400 (a * 10) b 0.

(** The decimal numbers with [k] digits next to [x = a / b], below and above,
    that have [x] as their number value; the nearer first. *)
Definition digits_candidates (a b n k : Z) : list Z :=
  let x := a # Z.to_pos b in
  let e := n - k in
  let lo := if 0 <=? e then a / (b * 10 ^ e) else a * 10 ^ (- e) / b in
  let ok s := match round_double (decimal_value s e) with
              | Some y => Qeq_bool y x
              | None => false
              end in
  let dlo := Qminus x (decimal_value lo e) in
  let dhi := Qminus (decimal_value (lo + 1) e) x in
  let ordered :=
    match Qcompare dlo dhi with
    | Lt => [lo; lo + 1]
    | Gt => [lo + 1; lo]
    | Eq => if Z.even lo then [lo; lo + 1] else [lo + 1; lo]
    end in
  List.filter ok ordered.

(** The shortest digits [s] and the exponent [n] of [Number::toString]. *)
Fixpoint shortest_digits (fuel : nat) (a b n k : Z) : Z * Z :=
  match fuel with
  | O => (a * 10 ^ 17 / b, 17)
  | S fuel' =>
      match digits_candidates a b n k with
      | s :: _ => if s =? 10 ^ k then (10 ^ (k - 1), n + 1) else (s, n)
      | [] => shortest_digits fuel' a b n (k + 1)
      end
  end.

Definition zeros (n : Z) : string :=
  string_of_list_ascii (repeat "0"%char (Z.to_nat n)).

Definition substring_from (n : Z) (s : string) : string :=
  string_of_list_ascii (drop (Z.to_nat n) (list_ascii_of_string s)).

Definition substring_to (n : Z) (s : string) : string :=
  string_of_list_ascii (take (Z.to_nat n) (list_ascii_of_string s)).

(** [Number::toString] of a positive number. *)
Definition positive_to_string (a b : Z) : string :=
  let n0 := decimal_magnitude a b in
  let '(s, n) := shortest_digits 17 a b n0 1 in
  let ds := pretty (Z.to_N s) in
  let k := Z.of_nat (String.length ds) in
  if (k <=? n) && (n <=? 21) then ds +:+ zeros (n - k)
  else if (0 <? n) && (n <=? 21) then
    substring_to n ds +:+ "." +:+ substring_from n ds
  else if (-6 <? n) && (n <=? 0) then "0." +:+ zeros (- n) +:+ ds
  else
    let e := n - 1 in
    (if k =? 1 then ds else substring_to 1 ds +:+ "." +:+ substring_from 1 ds)
      +:+ "e" +:+ (if e <? 0 then "-" else "+") +:+ pretty (Z.to_N (Z.abs e)).

(** [String(q)] *)
Definition number_to_string (q : Q) : string :=
  let n := Qnum q in
  let d := Z.pos (Qden q) in
  if n =? 0 then "0"
  else if 0 <? n then positive_to_string n d
  else "-" +:+ positive_to_string (- n) d.

Fixpoint join_with (sep : string) (parts : list string) : string :=
  match parts with
  | [] => ""
  | [p] => p
  | p :: rest => p +:+ sep +:+ join_with sep rest
  end.

(** The text [String(v)] gives when the conversion returns. *)
Fixpoint to_string (v : JsVal) : string :=
  match v with
  | VUndefined => "undefined"
  | VNull => "null"
  | VBool true => "true"
  | VBool false => "false"
  | VNum q => number_to_string q
  | VInfinity negative => if negative then "-Infinity" else "Infinity"
  | VStr s => s
  | VArr items =>
      join_with ","
        (map (fun x => match x with
                       | VUndefined | VNull => ""
                       | _ => to_string x
                       end) items)
  | VObj _ | VRef _ => "[object Object]"
  | VPromise _ => "[object Promise]"
  | VFun _ => "function () { [native code] }"
  end.

(** Whether [String(v)] returns.  The conversion of an object calls its
    member [toString] and, if that is no function or does not give a
    primitive, its member [valueOf]; the members every object inherits give
    ["[object Object]"].  An object that has a member [toString] of its
    own, which in data is never a function, is left with the inherited
    [valueOf], which gives the object itself: [String] throws a
    [TypeError].  An array converts its elements. *)
Fixpoint converts (v : JsVal) : bool :=
  match v with
  | VObj props => negb (bool_decide ("toString" ∈ props.*1))
  | VArr items => forallb converts items
  | _ => true
  end.

(** [String(v)], the conversion applied to a value used as a property key
    ([this.callbacks[message.id]], [this.handlers[eventName]]) or as the
    text given to [JSON.parse]. *)
Definition js_string (v : JsVal) : Completion string :=
  if converts v then Normal (to_string v) else Abrupt TypeError.

(** ** JSON *)

Definition quote_char : ascii := "034"%char.
Definition backslash_char : ascii := "092"%char.

Definition is_ws (c : ascii) : bool :=
  match nat_of_ascii c with
  | 32%nat | 9%nat | 10%nat | 13%nat => true
  | _ => false
  end.

Fixpoint skip_ws (s : list ascii) : list ascii :=
  match s with
  | c :: rest => if is_ws c then skip_ws rest else s
  | [] => []
  end.

Definition digit_of (c : ascii) : option Z :=
  let n := Z.of_nat (nat_of_ascii c) in
  if (48 <=? n) && (n <=? 57) then Some (n - 48) else None.

Definition hex_of (c : ascii) : option Z :=
  let n := Z.of_nat (nat_of_ascii c) in
  if (48 <=? n) && (n <=? 57) then Some (n - 48)
  else if (65 <=? n) && (n <=? 70) then Some (n - 55)
  else if (97 <=? n) && (n <=? 102) then Some (n - 87)
  else None.

(** Reads a possibly empty run of digits: its value continuing [acc], how
    many digits were read, and the rest of the input. *)
Fixpoint take_digits (s : list ascii) (acc : Z) (count : Z)
  : Z * Z * list ascii :=
  match s with
  | c :: rest =>
      match digit_of c with
      | Some d => take_digits rest (acc * 10 + d) (count + 1)
      | None => (acc, count, s)
      end
  | [] => (acc, count, [])
  end.

(** The integer part of a number: [0], or a run of digits not starting
    with [0]. *)
Definition parse_int_part (s : list ascii) : option (Z * list ascii) :=
  match s with
  | c :: rest =>
      match digit_of c with
      | Some 0 => Some (0, rest)
      | Some _ => let '(n, _, rest') := take_digits s 0 0 in Some (n, rest')
      | None => None
      end
  | [] => None
  end.

(** The optional fraction: the mantissa continued by the fraction digits and
    the number of those digits. *)
Definition parse_frac_part (mant : Z) (s : list ascii)
  : option (Z * Z * list ascii) :=
  match s with
  | c :: rest =>
      if Ascii.eqb c "." then
        let '(m, k, rest') := take_digits rest mant 0 in
        if k =? 0 then None else Some (m, k, rest')
      else Some (mant, 0, s)
  | [] => Some (mant, 0, [])
  end.

Definition parse_exp_part (s : list ascii) : option (Z * list ascii) :=
  match s with
  | c :: rest =>
      if Ascii.eqb c "e" || Ascii.eqb c "E" then
        let '(neg, rest1) :=
          match rest with
          | sg :: rest1 =>
              if Ascii.eqb sg "-" then (true, rest1)
              else if Ascii.eqb sg "+" then (false, rest1)
              else (false, rest)
          | [] => (false, rest)
          end in
        let '(e, k, rest2) := take_digits rest1 0 0 in
        if k =? 0 then None else Some (if neg then - e else e, rest2)
      else Some (0, s)
  | [] => Some (0, [])
  end.

Definition parse_number (s : list ascii) : option (JsVal * list ascii) :=
  let '(neg, s1) :=
    match s with
    | c :: rest => if Ascii.eqb c "-" then (true, rest) else (false, s)
    | [] => (false, s)
    end in
  match parse_int_part s1 with
  | None => None
  | Some (n, s2) =>
      match parse_frac_part n s2 with
      | None => None
      | Some (m, k, s3) =>
          match parse_exp_part s3 with
          | None => None
          | Some (e, s4) =>
              Some (match round_double
                            (decimal_value (if neg then - m else m) (e - k)) with
                    | Some q => VNum q
                    | None => VInfinity neg
                    end, s4)
          end
      end
  end.

(** The bytes of a [\uXXXX] escape. *)
Definition utf8_of_code_unit (cu : Z) : list ascii :=
  let byte (n : Z) := ascii_of_nat (Z.to_nat n) in
  if cu <? 128 then [byte cu]
  else if cu <? 2048 then [byte (192 + cu / 64); byte (128 + cu mod 64)]
  else [byte (224 + cu / 4096); byte (128 + cu / 64 mod 64); byte (128 + cu mod 64)].

(** The code unit three bytes encode. *)
Definition code_unit_of (b1 b2 b3 : ascii) : Z :=
  let n (b : ascii) := Z.of_nat (nat_of_ascii b) in
  (n b1 - 224) * 4096 + (n b2 - 128) * 64 + (n b3 - 128).

Definition is_high_surrogate (cu : Z) : bool := (55296 <=? cu) && (cu <? 56320).
Definition is_low_surrogate (cu : Z) : bool := (56320 <=? cu) && (cu <? 57344).

(** Whether three bytes encode a code unit, as the bytes [byte1 byte2 byte3]
    of [utf8_of_code_unit] do. *)
Definition is_unit3 (b1 b2 b3 : ascii) : bool :=
  let n (b : ascii) := Z.of_nat (nat_of_ascii b) in
  (224 <=? n b1) && (n b1 <? 240)
  && (128 <=? n b2) && (n b2 <? 192) && (128 <=? n b3) && (n b3 <? 192).

(** A high surrogate followed by a low one is one character, written with
    four bytes. *)
Fixpoint combine_surrogates (s : list ascii) : list ascii :=
  match s with
  | [] => []
  | b1 :: rest =>
      match rest with
      | b2 :: b3 :: b4 :: b5 :: b6 :: rest' =>
          let hi := code_unit_of b1 b2 b3 in
          let lo := code_unit_of b4 b5 b6 in
          if is_unit3 b1 b2 b3 && is_high_surrogate hi
             && is_unit3 b4 b5 b6 && is_low_surrogate lo
          then
            let cp := 65536 + (hi - 55296) * 1024 + (lo - 56320) in
            let byte (n : Z) := ascii_of_nat (Z.to_nat n) in
            byte (240 + cp / 262144) :: byte (128 + cp / 4096 mod 64)
            :: byte (128 + cp / 64 mod 64) :: byte (128 + cp mod 64)
            :: combine_surrogates rest'
          else b1 :: combine_surrogates rest
      | _ => b1 :: combine_surrogates rest
      end
  end.

(** The code units of a string, each as a string of its own: a character
    written with four bytes is a pair of surrogates. *)
Fixpoint code_units (s : list ascii) : list string :=
  match s with
  | [] => []
  | b1 :: rest =>
      let n (b : ascii) := Z.of_nat (nat_of_ascii b) in
      let unit (bs : list ascii) := string_of_list_ascii bs in
      if n b1 <? 192 then unit [b1] :: code_units rest
      else
        match rest with
        | b2 :: rest2 =>
            if n b1 <? 224 then unit [b1; b2] :: code_units rest2
            else
              match rest2 with
              | b3 :: rest3 =>
                  if n b1 <? 240 then unit [b1; b2; b3] :: code_units rest3
                  else
                    match rest3 with
                    | b4 :: rest4 =>
                        let cp := (n b1 - 240) * 262144 + (n b2 - 128) * 4096
                                  + (n b3 - 128) * 64 + (n b4 - 128) - 65536 in
                        unit (utf8_of_code_unit (55296 + cp / 1024))
                        :: unit (utf8_of_code_unit (56320 + cp mod 1024))
                        :: code_units rest4
                    | [] => unit [b1; b2; b3] :: code_units rest3
                    end
              | [] => unit [b1; b2] :: code_units rest2
              end
        | [] => [unit [b1]]
        end
  end.

Definition simple_escape (c : ascii) : option ascii :=
  match nat_of_ascii c with
  | 34%nat => Some quote_char
  | 92%nat => Some backslash_char
  | 47%nat => Some "/"%char
  | 98%nat => Some "008"%char
  | 102%nat => Some "012"%char
  | 110%nat => Some "010"%char
  | 114%nat => Some "013"%char
  | 116%nat => Some "009"%char
  | _ => None
  end.

(** The characters of a string literal after its opening quote, up to and
    including the closing quote; [acc] holds the decoded bytes in reverse. *)
Fixpoint parse_string_body (s : list ascii) (acc : list ascii)
  : option (string * list ascii) :=
  match s with
  | [] => None
  | c :: rest =>
      if Ascii.eqb c quote_char
      then Some (string_of_list_ascii (combine_surrogates (rev acc)), rest)
      else if Ascii.eqb c backslash_char then
        match rest with
        | [] => None
        | e :: rest' =>
            if Ascii.eqb e "u" then
              match rest' with
              | h1 :: h2 :: h3 :: h4 :: rest'' =>
                  match hex_of h1, hex_of h2, hex_of h3, hex_of h4 with
                  | Some a, Some b, Some c', Some d =>
                      parse_string_body rest''
                        (rev (utf8_of_code_unit (((a * 16 + b) * 16 + c') * 16 + d)) ++ acc)
                  | _, _, _, _ => None
                  end
              | _ => None
              end
            else
              match simple_escape e with
              | Some x => parse_string_body rest' (x :: acc)
              | None => None
              end
        end
      else if (nat_of_ascii c <? 32)%nat then None
      else parse_string_body rest (c :: acc)
  end.

Definition expect_word (w : string) (s : list ascii) : option (list ascii) :=
  let l := list_ascii_of_string w in
  if bool_decide (take (length l) s = l) then Some (drop (length l) s) else None.

(** A JSON text is parsed by recursive descent.  Every recursive call is
    preceded by at most one call that consumes no character, so a budget of
    twice the length of the input (and two) is never exhausted. *)
Fixpoint parse_value (fuel : nat) (s : list ascii) {struct fuel}
  : option (JsVal * list ascii) :=
  match fuel with
  | O => None
  | S fuel' =>
      match skip_ws s with
      | [] => None
      | c :: rest =>
          if Ascii.eqb c "{" then
            match skip_ws rest with
            | c' :: rest' =>
                if Ascii.eqb c' "}" then Some (VObj [], rest')
                else parse_members fuel' (skip_ws rest) []
            | [] => None
            end
          else if Ascii.eqb c "[" then
            match skip_ws rest with
            | c' :: rest' =>
                if Ascii.eqb c' "]" then Some (VArr [], rest')
                else parse_elements fuel' (skip_ws rest) []
            | [] => None
            end
          else if Ascii.eqb c quote_char then
            match parse_string_body rest [] with
            | Some (str, rest') => Some (VStr str, rest')
            | None => None
            end
          else if Ascii.eqb c "t" then
            option_map (pair (VBool true)) (expect_word "true" (c :: rest))
          else if Ascii.eqb c "f" then
            option_map (pair (VBool false)) (expect_word "false" (c :: rest))
          else if Ascii.eqb c "n" then
            option_map (pair VNull) (expect_word "null" (c :: rest))
          else parse_number (c :: rest)
      end
  end
with parse_elements (fuel : nat) (s : list ascii) (acc : list JsVal) {struct fuel}
  : option (JsVal * list ascii) :=
  match fuel with
  | O => None
  | S fuel' =>
      match parse_value fuel' s with
      | None => None
      | Some (v, rest) =>
          match skip_ws rest with
          | c :: rest' =>
              if Ascii.eqb c "," then parse_elements fuel' rest' (v :: acc)
              else if Ascii.eqb c "]" then Some (VArr (rev (v :: acc)), rest')
              else None
          | [] => None
          end
      end
  end
with parse_members (fuel : nat) (s : list ascii) (acc : list (string * JsVal))
  {struct fuel} : option (JsVal * list ascii) :=
  match fuel with
  | O => None
  | S fuel' =>
      match skip_ws s with
      | q :: rest =>
          if Ascii.eqb q quote_char then
            match parse_string_body rest [] with
            | None => None
            | Some (key, rest1) =>
                match skip_ws rest1 with
                | colon :: rest2 =>
                    if Ascii.eqb colon ":" then
                      match parse_value fuel' rest2 with
                      | None => None
                      | Some (v, rest3) =>
                          match skip_ws rest3 with
                          | c :: rest4 =>
                              if Ascii.eqb c "," then
                                parse_members fuel' rest4 (assoc_set acc key v)
                              else if Ascii.eqb c "}" then
                                Some (VObj (assoc_set acc key v), rest4)
                              else None
                          | [] => None
                          end
                      end
                    else None
                | [] => None
                end
            end
          else None
      | [] => None
      end
  end.

(** [JSON.parse(text)]: [None] stands for the [SyntaxError] it throws. *)
Definition JSON_parse (text : string) : option JsVal :=
  let s := list_ascii_of_string text in
  match parse_value (2 * length s + 2) s with
  | Some (v, rest) =>
      match skip_ws rest with
      | [] => Some v
      | _ :: _ => None
      end
  | None => None
  end.

(** [JSON.parse(v)] for any value [v]: the argument is converted to a string
    first. *)
Definition JSON_parse_value (v : JsVal) : Completion JsVal :=
  match js_string v with
  | Normal text =>
      match JSON_parse text with
      | Some message => Normal message
      | None => Abrupt SyntaxError
      end
  | Abrupt e => Abrupt e
  end.

(** JSON texts of the examples are written with ['] for the quote character. *)
Definition json_text (s : string) : string :=
  string_of_list_ascii
    (map (fun c => if Ascii.eqb c "'" then quote_char else c) (list_ascii_of_string s)).

Definition hex_digit (d : Z) : ascii :=
  if d <? 10 then digit_char d else ascii_of_nat (Z.to_nat (87 + d)).

Definition escape_char (c : ascii) : list ascii :=
  let n := Z.of_nat (nat_of_ascii c) in
  if n =? 34 then [backslash_char; quote_char]
  else if n =? 92 then [backslash_char; backslash_char]
  else if n =? 8 then [backslash_char; "b"%char]
  else if n =? 12 then [backslash_char; "f"%char]
  else if n =? 10 then [backslash_char; "n"%char]
  else if n =? 13 then [backslash_char; "r"%char]
  else if n =? 9 then [backslash_char; "t"%char]
  else if n <? 32 then
    [backslash_char; "u"%char; "0"%char; "0"%char; hex_digit (n / 16); hex_digit (n mod 16)]
  else [c].

(** A surrogate that is not half of a pair is written as an escape. *)
Fixpoint escape_chars (s : list ascii) : list ascii :=
  match s with
  | [] => []
  | b1 :: rest =>
      match rest with
      | b2 :: b3 :: rest' =>
          let cu := code_unit_of b1 b2 b3 in
          if is_unit3 b1 b2 b3 && (is_high_surrogate cu || is_low_surrogate cu) then
            [backslash_char; "u"%char; hex_digit (cu / 4096); hex_digit (cu / 256 mod 16);
             hex_digit (cu / 16 mod 16); hex_digit (cu mod 16)]
            ++ escape_chars rest'
          else escape_char b1 ++ escape_chars rest
      | _ => escape_char b1 ++ escape_chars rest
      end
  end.

Definition quote_string (s : string) : string :=
  string_of_list_ascii
    (quote_char :: escape_chars (list_ascii_of_string s) ++ [quote_char]).

(** An array index: the canonical decimal form of an integer below
    [2 ^ 32 - 1]. *)
Definition array_index (k : string) : option N :=
  let '(n, count, rest) := take_digits (list_ascii_of_string k) 0 0 in
  if (0 <? count) && bool_decide (rest = []) && (n <? 2 ^ 32 - 1)
     && String.eqb (pretty (Z.to_N n)) k
  then Some (Z.to_N n) else None.

Fixpoint insert_indexed {A} (i : N) (x : A) (l : list (N * A)) : list (N * A) :=
  match l with
  | [] => [(i, x)]
  | (j, y) :: rest =>
      if (i <? j)%N then (i, x) :: l else (j, y) :: insert_indexed i x rest
  end.

(** The order in which the own properties of an object are listed (by
    [for ... in], by [JSON.stringify]): the array indices in ascending
    order, then the other names in the order of their creation. *)
Definition own_property_order {A} (props : list (string * A)) : list (string * A) :=
  map snd
    (foldr (fun kv acc => match array_index kv.1 with
                          | Some i => insert_indexed i kv acc
                          | None => acc
                          end) [] props)
  ++ List.filter (fun kv => match array_index kv.1 with
                            | Some _ => false
                            | None => true
                            end) props.

(** [JSON.stringify(v)]; [None] where JavaScript yields [undefined].  A
    property whose value is [undefined] or a function is left out, such an
    array element is written [null], and so is an infinite number.  A
    [VRef] has no modelled properties; a [toJSON] member is not looked
    for. *)
Fixpoint JSON_stringify (v : JsVal) : option string :=
  match v with
  | VUndefined | VFun _ => None
  | VNull | VInfinity _ => Some "null"
  | VBool true => Some "true"
  | VBool false => Some "false"
  | VNum q => Some (number_to_string q)
  | VStr s => Some (quote_string s)
  | VArr items =>
      Some ("[" +:+ join_with ","
              (map (fun x => match JSON_stringify x with
                             | Some s => s
                             | None => "null"
                             end) items) +:+ "]")
  | VObj props =>
      let fix texts (ps : list (string * JsVal)) : list (string * option string) :=
        match ps with
        | [] => []
        | (k, x) :: rest => (k, JSON_stringify x) :: texts rest
        end in
      let member (kt : string * option string) : list string :=
        match kt.2 with
        | Some s => [quote_string kt.1 +:+ ":" +:+ s]
        | None => []
        end in
      Some ("{" +:+ join_with "," (concat (map member (own_property_order (texts props))))
              +:+ "}")
  | VRef _ | VPromise _ => Some "{}"
  end.

(** Data as [JSON.parse] yields it and as it can be written back: no
    function and no opaque object occurs in it. *)
Fixpoint plain_data (v : JsVal) : bool :=
  match v with
  | VFun _ | VRef _ | VPromise _ => false
  | VArr items => forallb plain_data items
  | VObj props =>
      (fix all (ps : list (string * JsVal)) : bool :=
         match ps with
         | [] => true
         | (_, x) :: rest => plain_data x && all rest
         end) props
  | _ => true
  end.

(** [JSON.stringify] of an object literal, which always yields a text. *)
Definition JSON_stringify_object (props : list (string * JsVal)) : string :=
  match JSON_stringify (VObj props) with
  | Some s => s
  | None => ""
  end.

(** ** The page: window globals and the effects of the library *)

(** The methods of [DirectAddInClient] that are stored, unbound, in the
    window's callback slots. *)
Inductive DirectMethod : Type :=
| messageReceivedHandler_method
| beforeMessagePostHandler_method
| closingHandler_method.

(** What reading [window.parent && window.parent.location.href] gives. *)
Inductive ParentAccess : Type :=
| NoParent                       (* [window.parent] is absent *)
| HrefDenied                     (* the browser refuses the read: it throws *)
| HrefIs (href : JsVal).         (* the read succeeds *)

Record Window : Type := {
  parent : ParentAccess;
  external : JsVal;
  addins : JsVal;
  readyState : string;
  MessageReceived : option DirectMethod;
  MessagePosting : option DirectMethod;
  Closing : option DirectMethod
}.

(** A rejected promise holds what awaiting it throws. *)
Inductive PromiseState : Type :=
| Pending
| Fulfilled (value : JsVal)
| Rejected (reason : Exception).

(** One application [f.apply(this, args)] made by the library. *)
Record Invocation : Type := {
  inv_fn : FnRef;
  inv_this : JsVal;
  inv_args : list JsVal
}.

(** One [window.parent.postMessage(data, targetOrigin)]. *)
Record PostedMessage : Type := {
  data : string;
  targetOrigin : string
}.

Record Realm : Type := {
  window : Window;
  calls : list Invocation;
  posted : list PostedMessage;
  promises : list PromiseState
}.

Definition set_window (f : Window -> Window) (r : Realm) : Realm :=
  {| window := f (window r); calls := calls r; posted := posted r;
     promises := promises r |}.

Definition log_call (i : Invocation) (r : Realm) : Realm :=
  {| window := window r; calls := calls r ++ [i]; posted := posted r;
     promises := promises r |}.

Definition log_post (m : PostedMessage) (r : Realm) : Realm :=
  {| window := window r; calls := calls r; posted := posted r ++ [m];
     promises := promises r |}.

Definition set_promises (f : list PromiseState -> list PromiseState) (r : Realm)
  : Realm :=
  {| window := window r; calls := calls r; posted := posted r;
     promises := f (promises r) |}.

(** A component together with the page it lives in. *)
Record World (C : Type) : Type := {
  self : C;
  realm : Realm
}.
Arguments self {C} w.
Arguments realm {C} w.
Arguments Build_World {C} self realm.

(** Code that reads and writes a state [S] and returns or throws. *)
Definition Eff (S A : Type) : Type := S -> S * Completion A.

#[global] Instance Eff_ret {S} : MRet (Eff S) :=
  fun A a s => (s, Normal a).

#[global] Instance Eff_bind {S} : MBind (Eff S) :=
  fun A B k m s =>
    match m s with
    | (s', Normal a) => k a s'
    | (s', Abrupt e) => (s', Abrupt e)
    end.

Definition throw {S A} (e : Exception) : Eff S A := fun s => (s, Abrupt e).

Definition of_completion {S A} (c : Completion A) : Eff S A := fun s => (s, c).

Definition in_realm {C A} (m : Eff Realm A) : Eff (World C) A :=
  fun w =>
    let '(r, c) := m (realm w) in
    ({| self := self w; realm := r |}, c).

Definition modify_self {C} (f : C -> C) : Eff (World C) () :=
  fun w => ({| self := f (self w); realm := realm w |}, Normal ()).

Definition get_self {C} : Eff (World C) C :=
  fun w => (w, Normal (self w)).

(** [window.parent.postMessage(data, "*")]: without a parent the member
    cannot be read. *)
Definition postMessage (d : string) (origin : string) : Eff Realm () :=
  fun r =>
    match parent (window r) with
    | NoParent => (r, Abrupt TypeError)
    | HrefDenied | HrefIs _ =>
        (log_post {| data := d; targetOrigin := origin |} r, Normal ())
    end.

(** The behaviour of the functions of the add-in and of the host: what
    function [n] returns or throws when applied to [this] and [args]. *)
Class UserCode : Type :=
  fn_body : nat -> JsVal -> list JsVal -> Completion JsVal.

(** Settling promise [p]: only a pending promise changes. *)
Definition settle (p : nat) (s : PromiseState) (ps : list PromiseState)
  : list PromiseState :=
  match ps !! p with
  | Some Pending => <[p := s]> ps
  | _ => ps
  end.

Definition first_arg (args : list JsVal) : JsVal :=
  match args with
  | [] => VUndefined
  | a :: _ => a
  end.

Section Apply.
Context `{UserCode}.

(** What the application returns. *)
Definition fn_result (f : FnRef) (this : JsVal) (args : list JsVal)
  : Completion JsVal :=
  match f with
  | UserFn n => fn_body n this args
  | ResolveFn _ | RejectFn _ => Normal VUndefined
  end.

(** What the application does to the promises of the page. *)
Definition fn_effect (f : FnRef) (args : list JsVal) (ps : list PromiseState)
  : list PromiseState :=
  match f with
  | UserFn _ => ps
  | ResolveFn p => settle p (Fulfilled (first_arg args)) ps
  | RejectFn p => settle p (Rejected (Thrown (first_arg args))) ps
  end.

(** [f.apply(this, args)] for a function [f]. *)
Definition js_apply (f : FnRef) (this : JsVal) (args : list JsVal)
  : Eff Realm JsVal :=
  fun r =>
    (set_promises (fn_effect f args)
       (log_call {| inv_fn := f; inv_this := this; inv_args := args |} r),
     fn_result f this args).

(** [v.apply(this, args)] for any value [v]: only a function has [apply]. *)
Definition js_apply_value (v : JsVal) (this : JsVal) (args : list JsVal)
  : Eff Realm JsVal :=
  match v with
  | VFun f => js_apply f this args
  | _ => throw TypeError
  end.

End Apply.

(** [new Promise(executor)]: the promise is allocated, the executor runs at
    once with the two settling functions, and an executor that throws
    rejects the promise. *)
Definition new_Promise {C} (executor : JsVal -> JsVal -> Eff (World C) ())
  : Eff (World C) JsVal :=
  fun w =>
    let p := length (promises (realm w)) in
    let w1 := {| self := self w;
                 realm := set_promises (fun ps => ps ++ [Pending]) (realm w) |} in
    match executor (VFun (ResolveFn p)) (VFun (RejectFn p)) w1 with
    | (w2, Normal _) => (w2, Normal (VPromise p))
    | (w2, Abrupt e) =>
        ({| self := self w2;
            realm := set_promises (settle p (Rejected e)) (realm w2) |},
         Normal (VPromise p))
    end.

(** The operations the interface [IAddInClient] declares. *)
Inductive FacadeOp : Type :=
| op_getChatRoom
| op_getChatRoomAsync
| op_getLocalUserDetails
| op_getLocalUserDetailsAsync
| op_getDomainDetails
| op_getDomainDetailsAsync
| op_getMaxMessageLength
| op_getMaxMessageLengthAsync
| op_sendMessage
| op_sendMessageAsync
| op_addMessageReceivedHandler
| op_addBeforeMessageSendHandler
| op_addClosingHandler.

(** The [n]-th actual argument of a call. *)
Definition arg (n : nat) (args : list JsVal) : JsVal := nth n args VUndefined.

(** [client.op(...args)]: calling a member the object does not have throws. *)
Definition call_member {S} (member : option (list JsVal -> Eff S JsVal))
  (args : list JsVal) : Eff S JsVal :=
  match member with
  | Some m => m args
  | None => throw TypeError
  end.

(** ** util.ts *)

(** The properties a [for ... in] loop visits, in the order it visits
    them. *)
Definition own_enumerable (v : JsVal) : list (string * JsVal) :=
  match v with
  | VObj props => own_property_order props
  | VArr items => imap (fun i x => (pretty (N.of_nat i), x)) items
  | VStr s =>
      imap (fun i c => (pretty (N.of_nat i), VStr c))
        (code_units (list_ascii_of_string s))
  | _ => []
  end.

(** [target[attr] = value] on an object literal: the name [__proto__] is
    the accessor every object inherits, and assigning to it leaves the own
    properties as they are. *)
Definition js_set (target : list (string * JsVal)) (attr : string) (value : JsVal)
  : list (string * JsVal) :=
  if String.eqb attr "__proto__" then target else assoc_set target attr value.

Section Merge.
Context `{UserCode}.

(** [source.hasOwnProperty(attr)] for a name the loop visits.  The member is
    looked up on the source: it is the one every object inherits, which
    answers [true] here, unless the source has a property of that name of
    its own, which is then what is called. *)
Definition has_own_property (source : JsVal) (attr : string) : Eff Realm bool :=
  match source with
  | VObj props =>
      if bool_decide ("hasOwnProperty" ∈ props.*1) then
        answer ← js_apply_value (assoc_get props "hasOwnProperty") source [VStr attr];
        mret (truthy answer)
      else mret true
  | _ => mret true
  end.

Fixpoint merge_loop (source : JsVal) (attrs : list (string * JsVal))
  (target : list (string * JsVal)) : Eff Realm (list (string * JsVal)) :=
  match attrs with
  | [] => mret target
  | (attr, value) :: rest =>
      own ← has_own_property source attr;
      merge_loop source rest (if own : bool then js_set target attr value else target)
  end.

(** The result is the list of the own properties of the target. *)
Definition merge (target : list (string * JsVal)) (source : JsVal)
  : Eff Realm (list (string * JsVal)) :=
  if truthy source then merge_loop source (own_enumerable source) target
  else mret target.

End Merge.

(** The loop of [any] returns at the first element that matches. *)
Fixpoint any {A} (array : list A) (predicate : A -> bool) : bool :=
  match array with
  | [] => false
  | current :: rest => if predicate current then true else any rest predicate
  end.

(** The predicate both transports pass to [any]:
    [(item) => { return item === true; }]. *)
Definition is_true (item : JsVal) : bool := strict_equals item (VBool true).

(** ** MulticastDispatcher.ts *)

Module MulticastDispatcher.

(** [IHandlerConfig]: [addHandler] is the only code that creates one, and
    only for a function. *)
Record IHandlerConfig : Type := {
  handler : FnRef;
  scope : JsVal
}.

(** The state of a dispatcher: the arrays stored in its [handlers] field. *)
Record t : Type := {
  handlers : gmap string (list IHandlerConfig)
}.

Definition new : t := {| handlers := ∅ |}.

(** The members the object [handlers], like every object, inherits from
    [Object.prototype], each with the [length] a read of it has: the number
    of parameters of the function, and none for [__proto__], whose read
    gives the prototype object. *)
Definition prototype_members : list (string * option nat) :=
  [("constructor", Some 1%nat); ("hasOwnProperty", Some 1%nat);
   ("isPrototypeOf", Some 1%nat); ("propertyIsEnumerable", Some 1%nat);
   ("toLocaleString", Some 0%nat); ("toString", Some 0%nat);
   ("valueOf", Some 0%nat); ("__defineGetter__", Some 2%nat);
   ("__defineSetter__", Some 2%nat); ("__lookupGetter__", Some 1%nat);
   ("__lookupSetter__", Some 1%nat); ("__proto__", None)].

Fixpoint inherited_member (members : list (string * option nat)) (name : string)
  : option (option nat) :=
  match members with
  | [] => None
  | (k, len) :: rest => if String.eqb k name then Some len else inherited_member rest name
  end.

(** What a read [this.handlers[eventName]] finds: an array the dispatcher
    stored, or an inherited member. *)
Inductive HandlersEntry : Type :=
| EventHandlers (eventHandlers : list IHandlerConfig)
| Inherited (length : option nat).

(** [this.handlers[eventName]]: [None] is [undefined]. *)
Definition getHandlers (d : t) (eventName : string) : option HandlersEntry :=
  match handlers d !! eventName with
  | Some eventHandlers => Some (EventHandlers eventHandlers)
  | None => Inherited <$> inherited_member prototype_members eventName
  end.

(** [this.handlers[eventName] = this.handlers[eventName] || []].  Where the
    read finds an inherited member, the assignment stores that member under
    the name; every later read finds the same member as before, so the
    stored arrays are all the state there is. *)
Definition getOrCreateHandlers (d : t) (eventName : string)
  : t * HandlersEntry :=
  match getHandlers d eventName with
  | Some entry => (d, entry)
  | None => ({| handlers := <[eventName := []]> (handlers d) |}, EventHandlers [])
  end.

(** An inherited member has no [push]. *)
Definition addHandler (d : t) (eventName : string) (h : JsVal) (sc : JsVal)
  : t * Completion () :=
  match h with
  | VFun f =>
      let '(d', entry) := getOrCreateHandlers d eventName in
      match entry with
      | EventHandlers eventHandlers =>
          ({| handlers :=
                <[eventName := eventHandlers ++ [{| handler := f; scope := sc |}]]>
                  (handlers d') |},
           Normal ())
      | Inherited _ => (d', Abrupt TypeError)
      end
  | _ => (d, Normal ())
  end.

(** The test of the removal loop. *)
Definition matches (h : JsVal) (sc : JsVal) (existingHandler : IHandlerConfig)
  : bool :=
  strict_equals (VFun (handler existingHandler)) h
  && strict_equals (scope existingHandler) sc.

(** The loop of [removeHandler] from index [i]: [splice(i, 1)] followed by
    [--i] and the loop's [++i] leaves [i] in place.  Every turn removes an
    entry or moves on, so [length eventHandlers] turns are enough. *)
Fixpoint removeHandler_loop (fuel : nat) (i : nat)
  (eventHandlers : list IHandlerConfig) (h sc : JsVal) : list IHandlerConfig :=
  match fuel with
  | O => eventHandlers
  | S fuel' =>
      match eventHandlers !! i with
      | None => eventHandlers
      | Some existingHandler =>
          if matches h sc existingHandler
          then removeHandler_loop fuel' i (delete i eventHandlers) h sc
          else removeHandler_loop fuel' (S i) eventHandlers h sc
      end
  end.

(** [0 < eventHandlers.length] for an inherited member: the loops over the
    entries are entered, and [eventHandlers[0]] is [undefined]. *)
Definition loop_enters (length : option nat) : bool :=
  match length with
  | Some (S _) => true
  | Some O | None => false
  end.

(** On an inherited member whose [length] is positive, the first turn of the
    loop reads [existingHandler.handler] of [undefined]. *)
Definition removeHandler (d : t) (eventName : string) (h : JsVal) (sc : JsVal)
  : t * Completion () :=
  match getHandlers d eventName with
  | None => (d, Normal ())
  | Some (EventHandlers eventHandlers) =>
      ({| handlers :=
            <[eventName :=
                removeHandler_loop (length eventHandlers) 0 eventHandlers h sc]>
              (handlers d) |},
       Normal ())
  | Some (Inherited len) =>
      (d, if loop_enters len then Abrupt TypeError else Normal ())
  end.

(** [args.slice()] as the argument list of [apply]: only an array has
    [slice] and is accepted by [apply]. *)
Definition slice (args : JsVal) : Completion (list JsVal) :=
  match args with
  | VArr items => Normal items
  | _ => Abrupt TypeError
  end.

Section Calls.
Context `{UserCode}.

(** The loop of [callHandlers] from index [i]; [length eventHandlers] turns
    are enough, since every turn moves on by one. *)
Fixpoint callHandlers_loop (fuel : nat) (i : nat)
  (eventHandlers : list IHandlerConfig) (args : JsVal) (results : list JsVal)
  : Eff Realm (list JsVal) :=
  match fuel with
  | O => mret results
  | S fuel' =>
      match eventHandlers !! i with
      | None => mret results
      | Some h =>
          copy ← of_completion (slice args);
          result ← js_apply (handler h) (scope h) copy;
          callHandlers_loop fuel' (S i) eventHandlers args (results ++ [result])
      end
  end.

(** On an inherited member whose [length] is positive, the first turn of the
    loop reads [handler.handler] of [undefined]. *)
Definition callHandlers (d : t) (eventName : string) (args : JsVal)
  : Eff Realm (list JsVal) :=
  let args := js_or args (VArr []) in
  match getHandlers d eventName with
  | None => mret []
  | Some (EventHandlers eventHandlers) =>
      callHandlers_loop (length eventHandlers) 0 eventHandlers args []
  | Some (Inherited len) =>
      if loop_enters len then throw TypeError else mret []
  end.

End Calls.

End MulticastDispatcher.

(** ** PostMessageAddInClient.ts *)

(** The [event] a [message] listener receives: its [data]. *)
Record MessageEvent : Type := {
  message_data : JsVal
}.

Module PostMessageAddInClient.

Record ICallbackConfig : Type := {
  success : JsVal;
  failure : JsVal;
  scope : JsVal
}.

Record t : Type := {
  eventDispatcher : MulticastDispatcher.t;
  nextCallbackId : N;
  callbacks : gmap string ICallbackConfig
}.

Definition callbackPrefix : string := "cb-".

(** [n++] on the counter, a double that holds an integer: the successor of
    [2 ^ 53] is no double, and the sum rounds back to [2 ^ 53].  The counter
    of a client starts at 1, so it never exceeds [2 ^ 53]. *)
Definition increment (n : N) : N := if (n <? 2 ^ 53)%N then N.succ n else n.

Definition set_callbacks
  (f : gmap string ICallbackConfig -> gmap string ICallbackConfig) (c : t) : t :=
  {| eventDispatcher := eventDispatcher c;
     nextCallbackId := nextCallbackId c;
     callbacks := f (callbacks c) |}.

Definition set_eventDispatcher
  (f : MulticastDispatcher.t -> MulticastDispatcher.t) (c : t) : t :=
  {| eventDispatcher := f (eventDispatcher c);
     nextCallbackId := nextCallbackId c;
     callbacks := callbacks c |}.

(** A call of a method of [this.eventDispatcher] that changes the
    dispatcher. *)
Definition on_dispatcher
  (step : MulticastDispatcher.t -> MulticastDispatcher.t * Completion ())
  : Eff (World t) () :=
  fun w =>
    let '(d, c) := step (eventDispatcher (self w)) in
    ({| self := set_eventDispatcher (fun _ => d) (self w); realm := realm w |}, c).

(** [v.k] as a step of a method. *)
Definition prop {S} (v : JsVal) (k : string) : Eff S JsVal :=
  of_completion (get_prop v k).

Section Client.
Context `{UserCode}.

Definition register : Eff (World t) () :=
  in_realm (postMessage (JSON_stringify_object [("method", VStr "Register")]) "*").

(** The fields a new instance starts with. *)
Definition initial : t :=
  {| eventDispatcher := MulticastDispatcher.new;
     nextCallbackId := 1%N;
     callbacks := ∅ |}.

(** The constructor; [onMessageReceived] below is the listener it attaches to
    the [message] channel and [onReadyStateChange] the one it attaches to
    [readystatechange] when the document is not complete yet. *)
Definition constructor : Eff Realm t :=
  fun r =>
    let w := {| self := initial; realm := r |} in
    let '(w', c) :=
      if String.eqb (readyState (window r)) "complete" then register w
      else (w, Normal ()) in
    (realm w', match c with Normal _ => Normal (self w') | Abrupt e => Abrupt e end).


Definition isApiEvent (message : JsVal) : Eff (World t) bool :=
  e ← prop message "event";
  mret (truthy e).

Definition dispatchApiEvent (message : JsVal) : Eff (World t) () :=
  apiEvent ← prop message "event";
  name ← prop apiEvent "name";
  args ← prop apiEvent "args";
  c ← get_self;
  eventName ← of_completion (js_string name);
  results ← in_realm
    (MulticastDispatcher.callHandlers (eventDispatcher c) eventName args);
  id ← prop apiEvent "id";
  if truthy id then
    let result := any results is_true in
    let response := [("eventId", id); ("stopEvent", VBool result)] in
    in_realm (postMessage (JSON_stringify_object response) "*")
  else mret ().

Definition addCallback (succ fail sc : JsVal) : Eff (World t) string :=
  c ← get_self;
  let callback := {| success := succ; failure := fail; scope := sc |} in
  let callbackId := callbackPrefix +:+ pretty (nextCallbackId c) in
  modify_self (fun c =>
    {| eventDispatcher := eventDispatcher c;
       nextCallbackId := increment (nextCallbackId c);
       callbacks := <[callbackId := callback]> (callbacks c) |});;
  mret callbackId.

Definition isApiResponse (message : JsVal) : Eff (World t) bool :=
  id ← prop message "id";
  mret (truthy id).

(** [message.id && this.callbacks[message.id]]: the pending call, if the test
    succeeds.  A truthy id is converted to the property key. *)
Definition pending_call (c : t) (id : JsVal) : Completion (option ICallbackConfig) :=
  if truthy id then
    match js_string id with
    | Normal key => Normal (callbacks c !! key)
    | Abrupt e => Abrupt e
    end
  else Normal None.

Definition invokeResponseCallback (message : JsVal) : Eff (World t) () :=
  id ← prop message "id";
  c ← get_self;
  found ← of_completion (pending_call c id);
  match found with
  | Some callback =>
      result ← prop message "result";
      let response := js_or result (VStr "") in
      modify_self (set_callbacks (delete (to_string id)));;
      ok ← prop message "success";
      if truthy ok && truthy (success callback) then
        in_realm (js_apply_value (success callback) (scope callback) [response]);;
        mret ()
      else if negb (truthy ok) && truthy (failure callback) then
        in_realm (js_apply_value (failure callback) (scope callback) [response]);;
        mret ()
      else mret ()
  | None => mret ()
  end.

Definition onMessageReceived (event : MessageEvent) : Eff (World t) () :=
  message ← of_completion (JSON_parse_value (message_data event));
  if truthy message then
    isEvent ← isApiEvent message;
    if isEvent : bool then dispatchApiEvent message
    else
      isResponse ← isApiResponse message;
      if isResponse : bool then invokeResponseCallback message
      else mret ()
  else mret ().

(** [args] is [null] when the caller passes none. *)
Definition sendApiRequest (method : string) (succ fail sc : JsVal) (args : JsVal)
  : Eff (World t) () :=
  callbackId ← addCallback succ fail sc;
  message ← in_realm (merge [("id", VStr callbackId); ("method", VStr method)] args);
  in_realm (postMessage (JSON_stringify_object message) "*").

Definition getChatRoom (succ fail sc : JsVal) : Eff (World t) () :=
  sendApiRequest "GetChatRoom" succ fail sc VNull.

Definition getChatRoomAsync : Eff (World t) JsVal :=
  new_Promise (fun resolve reject => getChatRoom resolve reject VUndefined).

Definition getLocalUserDetails (succ fail sc : JsVal) : Eff (World t) () :=
  sendApiRequest "GetLocalUserDetails" succ fail sc VNull.

Definition getLocalUserDetailsAsync : Eff (World t) JsVal :=
  new_Promise (fun resolve reject => getLocalUserDetails resolve reject VUndefined).

Definition getDomainDetails (succ fail sc : JsVal) : Eff (World t) () :=
  sendApiRequest "GetDomainDetails" succ fail sc VNull.

Definition getDomainDetailsAsync : Eff (World t) JsVal :=
  new_Promise (fun resolve reject => getDomainDetails resolve reject VUndefined).

Definition getMaxMessageLength (succ fail sc : JsVal) : Eff (World t) () :=
  sendApiRequest "GetMaxMessageLength" succ fail sc VNull.

Definition getMaxMessageLengthAsync : Eff (World t) JsVal :=
  new_Promise (fun resolve reject => getMaxMessageLength resolve reject VUndefined).

Definition sendMessage (message alert : JsVal) (succ fail sc : JsVal)
  : Eff (World t) () :=
  sendApiRequest "SendMessage" succ fail sc
    (VObj [("message", message); ("alert", alert)]).

Definition sendMessageAsync (message alert : JsVal) : Eff (World t) JsVal :=
  new_Promise (fun resolve reject =>
    sendMessage message alert resolve reject VUndefined).

Definition addMessageReceivedHandler (h sc : JsVal) : Eff (World t) () :=
  on_dispatcher (fun d => MulticastDispatcher.addHandler d "messagereceived" h sc).

Definition addBeforeMessageSendHandler (h sc : JsVal) : Eff (World t) () :=
  on_dispatcher (fun d => MulticastDispatcher.addHandler d "beforemessagesend" h sc).

Definition addClosingHandler (h sc : JsVal) : Eff (World t) () :=
  on_dispatcher (fun d => MulticastDispatcher.addHandler d "closing" h sc).

Definition returning_undefined (m : Eff (World t) ()) : Eff (World t) JsVal :=
  m;; mret VUndefined.

(** The members of the class behind the operations of [IAddInClient]. *)
Definition member (op : FacadeOp) : option (list JsVal -> Eff (World t) JsVal) :=
  match op with
  | op_getChatRoom => Some (fun a =>
      returning_undefined (getChatRoom (arg 0 a) (arg 1 a) (arg 2 a)))
  | op_getChatRoomAsync => Some (fun _ => getChatRoomAsync)
  | op_getLocalUserDetails => Some (fun a =>
      returning_undefined (getLocalUserDetails (arg 0 a) (arg 1 a) (arg 2 a)))
  | op_getLocalUserDetailsAsync => Some (fun _ => getLocalUserDetailsAsync)
  | op_getDomainDetails => Some (fun a =>
      returning_undefined (getDomainDetails (arg 0 a) (arg 1 a) (arg 2 a)))
  | op_getDomainDetailsAsync => Some (fun _ => getDomainDetailsAsync)
  | op_getMaxMessageLength => Some (fun a =>
      returning_undefined (getMaxMessageLength (arg 0 a) (arg 1 a) (arg 2 a)))
  | op_getMaxMessageLengthAsync => Some (fun _ => getMaxMessageLengthAsync)
  | op_sendMessage => Some (fun a =>
      returning_undefined
        (sendMessage (arg 0 a) (arg 1 a) (arg 2 a) (arg 3 a) (arg 4 a)))
  | op_sendMessageAsync => Some (fun a => sendMessageAsync (arg 0 a) (arg 1 a))
  | op_addMessageReceivedHandler => Some (fun a =>
      returning_undefined (addMessageReceivedHandler (arg 0 a) (arg 1 a)))
  | op_addBeforeMessageSendHandler => Some (fun a =>
      returning_undefined (addBeforeMessageSendHandler (arg 0 a) (arg 1 a)))
  | op_addClosingHandler => Some (fun a =>
      returning_undefined (addClosingHandler (arg 0 a) (arg 1 a)))
  end.

End Client.

End PostMessageAddInClient.

(** ** DirectAddInClient.ts *)

Module DirectAddInClient.

(** The value of the [api] field: a value found on the page ([null] at
    first, then [window.addins]) or an [ActiveXWrapper] around
    [window.external]. *)
Inductive ApiRef : Type :=
| ApiValue (v : JsVal)
| ActiveXWrapper (api : JsVal).

Record t : Type := {
  dispatcher : MulticastDispatcher.t;
  initialized : bool;
  api : ApiRef
}.

Definition set_dispatcher
  (f : MulticastDispatcher.t -> MulticastDispatcher.t) (c : t) : t :=
  {| dispatcher := f (dispatcher c);
     initialized := initialized c;
     api := api c |}.

(** A call of a method of [this.dispatcher] that changes the dispatcher. *)
Definition on_dispatcher
  (step : MulticastDispatcher.t -> MulticastDispatcher.t * Completion ())
  : Eff (World t) () :=
  fun w =>
    let '(d, c) := step (dispatcher (self w)) in
    ({| self := set_dispatcher (fun _ => d) (self w); realm := realm w |}, c).

(** The value [this] is bound to while a method runs: the instance, or the
    window when the host calls a function stored in one of its slots. *)
Inductive Receiver : Type :=
| ThisClient
| ThisWindow.

Definition api_truthy (a : ApiRef) : bool :=
  match a with
  | ApiValue v => truthy v
  | ActiveXWrapper _ => true
  end.

(** [this.api || window.addins || (window.external && new ActiveXWrapper(window.external))] *)
Definition probe (a : ApiRef) (w : Window) : ApiRef :=
  if api_truthy a then a
  else if truthy (addins w) then ApiValue (addins w)
  else if truthy (external w) then ActiveXWrapper (external w)
  else ApiValue (external w).

Definition initialize : Eff (World t) () :=
  fun w =>
    let c := self w in
    if initialized c then (w, Normal ())
    else
      let a := probe (api c) (window (realm w)) in
      ({| self := {| dispatcher := dispatcher c;
                     initialized := api_truthy a;
                     api := a |};
          realm := realm w |}, Normal ()).

(** The methods of an [ActiveXWrapper] pass their own parameters on:
    [PostMessage] its two, the others none. *)
Definition wrapper_args (methodName : string) (args : list JsVal) : list JsVal :=
  if String.eqb methodName "PostMessage" then [arg 0 args; arg 1 args] else [].

Definition wrapper_methods : list string :=
  ["GetChatRoom"; "GetDomain"; "GetMaxMessageLength"; "PostMessage"; "GetSelfUser"].

Section Client.
Context `{UserCode}.

(** [method.apply(this.api, args || [])] once [method] is known to be a
    function of the api object; [None] when it is not. *)
Definition api_method (a : ApiRef) (methodName : string)
  : option (list JsVal -> Eff Realm JsVal) :=
  match a with
  | ApiValue v =>
      match js_and v (js_get v methodName) with
      | VFun f => Some (fun args => js_apply f v args)
      | _ => None
      end
  | ActiveXWrapper ext =>
      if bool_decide (methodName ∈ wrapper_methods) then
        Some (fun args =>
          js_apply_value (js_get ext methodName) ext (wrapper_args methodName args))
      else None
  end.

(** [args] is [None] for the default [null]. *)
Definition callApiMethod (methodName : string) (succ fail sc : JsVal)
  (args : option (list JsVal)) : Eff (World t) () :=
  initialize;;
  c ← get_self;
  match api_method (api c) methodName with
  | Some method =>
      result ← in_realm (method (default [] args));
      if truthy succ then in_realm (js_apply_value succ sc [result]);; mret ()
      else mret ()
  | None =>
      if truthy fail then in_realm (js_apply_value fail sc []);; mret ()
      else mret ()
  end.

Definition getChatRoom (succ fail sc : JsVal) : Eff (World t) () :=
  callApiMethod "GetChatRoom" succ fail sc None.

Definition getLocalUserDetails (succ fail sc : JsVal) : Eff (World t) () :=
  callApiMethod "GetSelfUser" succ fail sc None.

Definition getDomainDetails (succ fail sc : JsVal) : Eff (World t) () :=
  callApiMethod "GetDomain" succ fail sc None.

Definition getMaxMessageLength (succ fail sc : JsVal) : Eff (World t) () :=
  callApiMethod "GetMaxMessageLength" succ fail sc None.

Definition sendMessage (message alert : JsVal) (succ fail sc : JsVal)
  : Eff (World t) () :=
  callApiMethod "PostMessage" succ fail sc (Some [message; alert]).

Definition addMessageReceivedHandler (h sc : JsVal) : Eff (World t) () :=
  on_dispatcher (fun d => MulticastDispatcher.addHandler d "messagereceived" h sc).

Definition addBeforeMessageSendHandler (h sc : JsVal) : Eff (World t) () :=
  on_dispatcher (fun d => MulticastDispatcher.addHandler d "beforemessagesend" h sc).

Definition addClosingHandler (h sc : JsVal) : Eff (World t) () :=
  on_dispatcher (fun d => MulticastDispatcher.addHandler d "closing" h sc).

(** [this.dispatcher]: a field of the instance; the window has no such
    property, so the read yields [undefined] there and the method call on it
    throws. *)
Definition this_dispatcher (this : Receiver) : Eff (World t) MulticastDispatcher.t :=
  fun w =>
    match this with
    | ThisClient => (w, Normal (dispatcher (self w)))
    | ThisWindow => (w, Abrupt TypeError)
    end.

Definition messageReceivedHandler (this : Receiver) (message sender : JsVal)
  : Eff (World t) JsVal :=
  d ← this_dispatcher this;
  in_realm (MulticastDispatcher.callHandlers d "messagereceived"
              (VArr [message; sender]));;
  mret VUndefined.

Definition beforeMessagePostHandler (this : Receiver) (message : JsVal)
  : Eff (World t) JsVal :=
  d ← this_dispatcher this;
  results ← in_realm (MulticastDispatcher.callHandlers d "beforemessagesend"
                        (VArr [message]));
  mret (VBool (any results is_true)).

Definition closingHandler (this : Receiver) : Eff (World t) JsVal :=
  d ← this_dispatcher this;
  in_realm (MulticastDispatcher.callHandlers d "closing" (VArr []));;
  mret VUndefined.

(** Running a method with a given [this]. *)
Definition run_method (m : DirectMethod) (this : Receiver) (args : list JsVal)
  : Eff (World t) JsVal :=
  match m with
  | messageReceivedHandler_method =>
      messageReceivedHandler this (arg 0 args) (arg 1 args)
  | beforeMessagePostHandler_method => beforeMessagePostHandler this (arg 0 args)
  | closingHandler_method => closingHandler this
  end.

(** The assignments store the methods themselves:
    [window.MessagePosting = this.beforeMessagePostHandler]. *)
Definition registerApiHandlers : Eff Realm () :=
  fun r =>
    (set_window (fun w =>
       {| parent := parent w; external := external w; addins := addins w;
          readyState := readyState w;
          MessageReceived := Some messageReceivedHandler_method;
          MessagePosting := Some beforeMessagePostHandler_method;
          Closing := Some closingHandler_method |}) r,
     Normal ()).

Definition initial : t :=
  {| dispatcher := MulticastDispatcher.new;
     initialized := false;
     api := ApiValue VNull |}.

Definition constructor : Eff Realm t :=
  registerApiHandlers;; mret initial.

(** The host calls a slot of the window: [window.MessagePosting(message)].
    The function found there runs with the window as [this]. *)
Definition host_calls (slot : Window -> option DirectMethod) (args : list JsVal)
  : Eff (World t) JsVal :=
  fun w =>
    match slot (window (realm w)) with
    | Some m => run_method m ThisWindow args w
    | None => (w, Abrupt TypeError)
    end.

Definition returning_undefined (m : Eff (World t) ()) : Eff (World t) JsVal :=
  m;; mret VUndefined.

(** The members of the class behind the operations of [IAddInClient]: the
    class body defines none of the five [...Async] members. *)
Definition member (op : FacadeOp) : option (list JsVal -> Eff (World t) JsVal) :=
  match op with
  | op_getChatRoom => Some (fun a =>
      returning_undefined (getChatRoom (arg 0 a) (arg 1 a) (arg 2 a)))
  | op_getLocalUserDetails => Some (fun a =>
      returning_undefined (getLocalUserDetails (arg 0 a) (arg 1 a) (arg 2 a)))
  | op_getDomainDetails => Some (fun a =>
      returning_undefined (getDomainDetails (arg 0 a) (arg 1 a) (arg 2 a)))
  | op_getMaxMessageLength => Some (fun a =>
      returning_undefined (getMaxMessageLength (arg 0 a) (arg 1 a) (arg 2 a)))
  | op_sendMessage => Some (fun a =>
      returning_undefined
        (sendMessage (arg 0 a) (arg 1 a) (arg 2 a) (arg 3 a) (arg 4 a)))
  | op_addMessageReceivedHandler => Some (fun a =>
      returning_undefined (addMessageReceivedHandler (arg 0 a) (arg 1 a)))
  | op_addBeforeMessageSendHandler => Some (fun a =>
      returning_undefined (addBeforeMessageSendHandler (arg 0 a) (arg 1 a)))
  | op_addClosingHandler => Some (fun a =>
      returning_undefined (addClosingHandler (arg 0 a) (arg 1 a)))
  | op_getChatRoomAsync
  | op_getLocalUserDetailsAsync
  | op_getDomainDetailsAsync
  | op_getMaxMessageLengthAsync
  | op_sendMessageAsync => None
  end.

End Client.

End DirectAddInClient.

(** ** The selector *)

Inductive IAddInClient : Type :=
| Direct (c : DirectAddInClient.t)
| PostMessage (c : PostMessageAddInClient.t).

(** [typeof (v) !== "undefined"] *)
Definition is_defined (v : JsVal) : bool :=
  match v with
  | VUndefined => false
  | _ => true
  end.

(** The value of [isCrossDomain] after the [try] block: it starts [true] and
    stays so when [window.parent] is absent or the read of its location
    throws. *)
Definition isCrossDomain (w : Window) : bool :=
  match parent w with
  | NoParent => true
  | HrefDenied => true
  | HrefIs parentHref => negb (is_defined parentHref)
  end.

(** The condition of the [if]. *)
Definition selects_direct (w : Window) : bool :=
  truthy (js_and (external w) (js_get (external w) "GetChatRoom"))
  || truthy (js_and (addins w) (js_get (addins w) "GetChatRoom"))
  || negb (isCrossDomain w).

Definition createAddInClient : Eff Realm IAddInClient :=
  fun r =>
    if selects_direct (window r) then
      (c ← DirectAddInClient.constructor; mret (Direct c)) r
    else
      (c ← PostMessageAddInClient.constructor; mret (PostMessage c)) r.

(** ** Vocabulary of the statements *)

(** The application a dispatch makes for the entry [h] with the argument
    list [xs]. *)
Definition invocation_of (xs : list JsVal) (h : MulticastDispatcher.IHandlerConfig)
  : Invocation :=
  {| inv_fn := MulticastDispatcher.handler h;
     inv_this := MulticastDispatcher.scope h;
     inv_args := xs |}.

(** The entries a removal keeps. *)
Definition keeps (h sc : JsVal) (e : MulticastDispatcher.IHandlerConfig) : bool :=
  negb (MulticastDispatcher.matches h sc e).

(** The entry [h] returns [v] when it is applied to [xs]. *)
Definition returns `{UserCode} (xs : list JsVal)
  (h : MulticastDispatcher.IHandlerConfig) (v : JsVal) : Prop :=
  fn_result (MulticastDispatcher.handler h) (MulticastDispatcher.scope h) xs
  = Normal v.

(** The entries of [l] applied one after the other to [args], up to the
    first that throws; the results are collected after [results]. *)
Fixpoint apply_in_order `{UserCode} (l : list MulticastDispatcher.IHandlerConfig)
  (args : JsVal) (results : list JsVal) : Eff Realm (list JsVal) :=
  match l with
  | [] => mret results
  | h :: rest =>
      copy ← of_completion (MulticastDispatcher.slice args);
      result ← js_apply (MulticastDispatcher.handler h)
                 (MulticastDispatcher.scope h) copy;
      apply_in_order rest args (results ++ [result])
  end.

(** The acknowledgement of an event. *)
Definition acknowledgement (id : JsVal) (stopEvent : bool) : PostedMessage :=
  {| data := JSON_stringify_object [("eventId", id); ("stopEvent", VBool stopEvent)];
     targetOrigin := "*" |}.

(** The pending-call table without the call registered under [key]. *)
Definition without_pending (key : string) (w : World PostMessageAddInClient.t)
  : World PostMessageAddInClient.t :=
  {| self := PostMessageAddInClient.set_callbacks (delete key) (self w);
     realm := realm w |}.

(** Applying a continuation as [invokeResponseCallback] does. *)
Definition run_continuation `{UserCode} (f : FnRef) (sc : JsVal) (response : JsVal)
  : Eff (World PostMessageAddInClient.t) () :=
  in_realm (js_apply f sc [response]);; mret ().

(** ** Code and pages of the examples *)

(** Function 0 returns [false], function 1 returns [true], function 2 throws
    and every other function returns [undefined]. *)
Definition example_code : UserCode :=
  fun n _ _ =>
    match n with
    | 0%nat => Normal (VBool false)
    | 1%nat => Normal (VBool true)
    | 2%nat => Abrupt (Thrown (VStr "boom"))
    | _ => Normal VUndefined
    end.

Definition example_window (p : ParentAccess) (ext add : JsVal) : Window :=
  {| parent := p; external := ext; addins := add; readyState := "complete";
     MessageReceived := None; MessagePosting := None; Closing := None |}.

Definition example_realm (w : Window) : Realm :=
  {| window := w; calls := []; posted := []; promises := [] |}.

(** A page embedded across origins, with no host objects. *)
Definition cross_origin_realm : Realm :=
  example_realm (example_window HrefDenied VUndefined VUndefined).

Definition frame (text : string) : MessageEvent :=
  {| message_data := VStr (json_text text) |}.

(** The argument list a dispatch passes to the handlers: the copy of
    [args || []] when that is an array. *)
Definition dispatch_arguments (args : JsVal) : list JsVal :=
  match MulticastDispatcher.slice (js_or args (VArr [])) with
  | Normal xs => xs
  | Abrupt _ => []
  end.

(** The entries registered for an event, none when it has no list. *)
Definition registered (d : MulticastDispatcher.t) (eventName : string)
  : list MulticastDispatcher.IHandlerConfig :=
  match MulticastDispatcher.getHandlers d eventName with
  | Some (MulticastDispatcher.EventHandlers eventHandlers) => eventHandlers
  | Some (MulticastDispatcher.Inherited _) | None => []
  end.

Inductive Transport : Type :=
| DirectTransport
| PostMessageTransport.

Definition transport_of (c : IAddInClient) : Transport :=
  match c with
  | Direct _ => DirectTransport
  | PostMessage _ => PostMessageTransport
  end.

(** The transport of the client [createAddInClient] constructs. *)
Definition selected (r : Realm) : option Transport :=
  match (createAddInClient r).2 with
  | Normal c => Some (transport_of c)
  | Abrupt _ => None
  end.

(** The host object [v] is present and exposes [GetChatRoom]. *)
Definition has_marker (v : JsVal) : bool :=
  truthy (js_and v (js_get v "GetChatRoom")).

(** The page can read the location of its parent. *)
Definition parent_readable (w : Window) : bool :=
  match parent w with
  | HrefIs href => is_defined href
  | NoParent | HrefDenied => false
  end.

(** The five awaitable operations of [IAddInClient]. *)
Definition awaitable_ops : list FacadeOp :=
  [op_getChatRoomAsync; op_getLocalUserDetailsAsync; op_getDomainDetailsAsync;
   op_getMaxMessageLengthAsync; op_sendMessageAsync].

(** A freshly constructed post-message client on that page. *)
Definition example_client : World PostMessageAddInClient.t :=
  {| self := PostMessageAddInClient.initial; realm := cross_origin_realm |}.

(** The client after [sendMessage("hello", false, f3, f4, scope)]: the call
    is pending under ["cb-1"]. *)
Definition example_pending : World PostMessageAddInClient.t :=
  (@PostMessageAddInClient.sendMessage example_code (VStr "hello") (VBool false)
     (VFun (UserFn 3)) (VFun (UserFn 4)) (VRef 7) example_client).1.

Definition example_callback : PostMessageAddInClient.ICallbackConfig :=
  {| PostMessageAddInClient.success := VFun (UserFn 3);
     PostMessageAddInClient.failure := VFun (UserFn 4);
     PostMessageAddInClient.scope := VRef 7 |}.

(** The response [{"id":"cb-1","success":true,"result":"X"}]. *)
Definition example_response : JsVal :=
  VObj [("id", VStr "cb-1"); ("success", VBool true); ("result", VStr "X")].

(** A dispatcher with three handlers for one event, which return [false],
    [true] and [false], each under a scope of its own. *)
Definition example_dispatcher : MulticastDispatcher.t :=
  (MulticastDispatcher.addHandler
     (MulticastDispatcher.addHandler
        (MulticastDispatcher.addHandler MulticastDispatcher.new
           "beforemessagesend" (VFun (UserFn 0)) (VRef 1)).1
        "beforemessagesend" (VFun (UserFn 1)) (VRef 2)).1
     "beforemessagesend" (VFun (UserFn 0)) (VRef 3)).1.

Definition example_entries : list MulticastDispatcher.IHandlerConfig :=
  [ {| MulticastDispatcher.handler := UserFn 0; MulticastDispatcher.scope := VRef 1 |};
    {| MulticastDispatcher.handler := UserFn 1; MulticastDispatcher.scope := VRef 2 |};
    {| MulticastDispatcher.handler := UserFn 0; MulticastDispatcher.scope := VRef 3 |} ].

(** A dispatcher whose first handler throws. *)
Definition example_throwing_dispatcher : MulticastDispatcher.t :=
  (MulticastDispatcher.addHandler
     (MulticastDispatcher.addHandler MulticastDispatcher.new
        "closing" (VFun (UserFn 2)) VUndefined).1
     "closing" (VFun (UserFn 1)) VUndefined).1.

(** The post-message client with the three handlers registered. *)
Definition example_listening : World PostMessageAddInClient.t :=
  {| self := PostMessageAddInClient.set_eventDispatcher
               (fun _ => example_dispatcher) PostMessageAddInClient.initial;
     realm := cross_origin_realm |}.

(** The event envelope
    [{"event":{"name":"beforemessagesend","args":["hi"],"id":id}}]. *)
Definition example_event (id : JsVal) : JsVal :=
  VObj [("event",
         VObj [("name", VStr "beforemessagesend"); ("args", VArr [VStr "hi"]);
               ("id", id)])].

(** A page that can read the location of its parent and has no host
    objects. *)
Definition same_origin_realm : Realm :=
  example_realm
    (example_window (HrefIs (VStr "https://chat.example/room")) VUndefined VUndefined).

(** A direct client on a page whose host exposes no api object. *)
Definition example_direct : World DirectAddInClient.t :=
  {| self := DirectAddInClient.initial;
     realm := (DirectAddInClient.constructor same_origin_realm).1 |}.

(** A dispatcher where one handler is registered twice under the same scope,
    and once more under another; another handler shares the first scope. *)
Definition example_duplicates : MulticastDispatcher.t :=
  (MulticastDispatcher.addHandler
     (MulticastDispatcher.addHandler
        (MulticastDispatcher.addHandler
           (MulticastDispatcher.addHandler MulticastDispatcher.new
              "closing" (VFun (UserFn 0)) (VRef 1)).1
           "closing" (VFun (UserFn 1)) (VRef 1)).1
        "closing" (VFun (UserFn 0)) (VRef 2)).1
     "closing" (VFun (UserFn 0)) (VRef 1)).1.


(** A message that has the fields of a response and an [event] as well. *)
Definition example_both : JsVal :=
  VObj [("id", VStr "cb-1"); ("success", VBool true);
        ("event",
         VObj [("name", VStr "beforemessagesend"); ("args", VArr [VStr "hi"])])].

(** ** The shim for the console *)

(** The one statement of the shim an add-in page loads before the client:
    [window.addins = window.addins || window.external;] *)
Definition addins_shim (w : Window) : Window :=
  {| parent := parent w; external := external w;
     addins := js_or (addins w) (external w);
     readyState := readyState w;
     MessageReceived := MessageReceived w;
     MessagePosting := MessagePosting w;
     Closing := Closing w |}.

(** ** Invariants and vocabulary of the clients *)

(** The id the next request of the post-message client is registered
    under. *)
Definition next_key (c : PostMessageAddInClient.t) : string :=
  PostMessageAddInClient.callbackPrefix
  +:+ pretty (PostMessageAddInClient.nextCallbackId c).

(** The largest value of the counter: from there on [++] leaves it as it
    is. *)
Definition counter_limit : N := (2 ^ 53)%N.

(** The counter is at most [2 ^ 53], and every pending call is registered
    under an id made from a number below the counter, or from the counter
    itself once that has reached [2 ^ 53]. *)
Definition ids_below (c : PostMessageAddInClient.t) : Prop :=
  (PostMessageAddInClient.nextCallbackId c <= counter_limit)%N
  /\ forall key cb,
       PostMessageAddInClient.callbacks c !! key = Some cb ->
       exists k, ((k < PostMessageAddInClient.nextCallbackId c)%N
                  \/ (k = counter_limit
                      /\ PostMessageAddInClient.nextCallbackId c = counter_limit))
                 /\ key = PostMessageAddInClient.callbackPrefix +:+ pretty k.

(** The source has no property [hasOwnProperty] of its own: the test of
    [merge] calls the member every object inherits. *)
Definition inherits_hasOwnProperty (source : JsVal) : bool :=
  match source with
  | VObj props => negb (bool_decide ("hasOwnProperty" ∈ props.*1))
  | _ => true
  end.

(** The own properties of the target after a [merge] whose test is the
    inherited one: every property of the source has been assigned, in the
    order the loop visits them. *)
Definition merged (target : list (string * JsVal)) (source : JsVal)
  : list (string * JsVal) :=
  if truthy source
  then fold_left (fun t kv => js_set t kv.1 kv.2) (own_enumerable source) target
  else target.

(** The page has a parent to post to. *)
Definition has_parent (r : Realm) : bool :=
  match parent (window r) with
  | NoParent => false
  | HrefDenied | HrefIs _ => true
  end.

(** The name is none of those every object inherits a member under. *)
Definition own_name (eventName : string) : bool :=
  match MulticastDispatcher.inherited_member MulticastDispatcher.prototype_members
          eventName with
  | Some _ => false
  | None => true
  end.


(** The direct client is marked initialized exactly when it holds an api. *)
Definition api_settled (c : DirectAddInClient.t) : Prop :=
  DirectAddInClient.initialized c
  = DirectAddInClient.api_truthy (DirectAddInClient.api c).

(** The completion of a method that ends by applying a continuation whose
    result it drops. *)
Definition unit_of (c : Completion JsVal) : Completion () :=
  match c with
  | Normal _ => Normal ()
  | Abrupt e => Abrupt e
  end.

(** The operations of the facade that register a handler, each with the
    event name its body passes to [addHandler]. *)
Definition handler_events : list (FacadeOp * string) :=
  [(op_addMessageReceivedHandler, "messagereceived");
   (op_addBeforeMessageSendHandler, "beforemessagesend");
   (op_addClosingHandler, "closing")].

(** The frame [register] posts. *)
Definition register_frame : PostedMessage :=
  {| data := json_text "{'method':'Register'}"; targetOrigin := "*" |}.

(** ** Further examples *)

(** A host object: [PostMessage] is function 1, [GetDomain] function 2 and
    [GetChatRoom] function 5. *)
Definition example_host : JsVal :=
  VObj [("GetChatRoom", VFun (UserFn 5)); ("PostMessage", VFun (UserFn 1));
        ("GetDomain", VFun (UserFn 2))].

(** A new direct client on a page where the host object is [window.addins]. *)
Definition example_hosted : World DirectAddInClient.t :=
  {| self := DirectAddInClient.initial;
     realm := example_realm (example_window HrefDenied VUndefined example_host) |}.

(** A new direct client on a page where the host object is
    [window.external] only. *)
Definition example_wrapped : World DirectAddInClient.t :=
  {| self := DirectAddInClient.initial;
     realm := example_realm (example_window HrefDenied example_host VUndefined) |}.



(** The client after [sendMessage("hello", false, undefined, f4, scope)]:
    the pending call has no success continuation. *)
Definition example_no_success : World PostMessageAddInClient.t :=
  (@PostMessageAddInClient.sendMessage example_code (VStr "hello") (VBool false)
     VUndefined (VFun (UserFn 4)) (VRef 7) example_client).1.

(** * Properties *)

Ltac eff :=
  unfold mbind, mret, Eff_bind, Eff_ret, of_completion, throw, in_realm,
    modify_self, get_self, PostMessageAddInClient.prop in *;
  simpl in *.

(** ** Reading properties *)

Lemma get_prop_defined (message : JsVal) (k : string) (v : JsVal) :
  get_prop message k = Normal v ->
  forall k', get_prop message k' = Normal (js_get message k').
Proof. destruct message; simpl; intros Hk k'; done. Qed.

Lemma get_prop_truthy (v : JsVal) (k : string) :
  truthy v = true -> get_prop v k = Normal (js_get v k).
Proof. destruct v; simpl; done. Qed.

Lemma is_true_iff (v : JsVal) : is_true v = true <-> v = VBool true.
Proof.
  unfold is_true. destruct v as [| |[]| | | | | | | |]; simpl; split; done.
Qed.

Lemma any_is_true_iff (rets : list JsVal) :
  any rets is_true = true <-> VBool true ∈ rets.
Proof.
  induction rets as [|v rets IH]; simpl.
  - split; [done|]. intros Hin. inversion Hin.
  - destruct (is_true v) eqn:Hv.
    + apply is_true_iff in Hv. subst. split; [|done].
      intros _. apply list_elem_of_here.
    + rewrite IH. split.
      * intros Hin. by apply list_elem_of_further.
      * intros Hin. inversion Hin; subst; [|done]. simpl in Hv. done.
Qed.

(** ** The dispatcher *)

Section DispatcherFacts.
Context `{UserCode}.
Import MulticastDispatcher.

(** The removal loop computes a filter: the entries before [i] stay, and of
    the entries from [i] on those that do not match stay, in order. *)
Lemma removeHandler_loop_filter (h sc : JsVal) (fuel : nat) :
  forall (i : nat) (l : list IHandlerConfig),
    (length l - i <= fuel)%nat ->
    removeHandler_loop fuel i l h sc
    = take i l ++ List.filter (keeps h sc) (drop i l).
Proof.
  induction fuel as [|fuel IH]; intros i l Hfuel; simpl.
  - rewrite drop_ge by lia. rewrite take_ge by lia. by rewrite app_nil_r.
  - destruct (l !! i) as [e|] eqn:He.
    + pose proof (lookup_lt_Some _ _ _ He) as Hlt.
      rewrite (drop_S l e i He). simpl. unfold keeps at 1.
      destruct (matches h sc e) eqn:Hm; simpl.
      * rewrite IH by (rewrite length_delete by eauto; lia).
        rewrite delete_take_drop.
        rewrite take_app_length' by (rewrite length_take; lia).
        rewrite drop_app_length' by (rewrite length_take; lia).
        reflexivity.
      * rewrite IH by lia.
        rewrite (take_S_r l i e He), <- app_assoc. reflexivity.
    + apply lookup_ge_None in He.
      rewrite drop_ge by lia. rewrite take_ge by lia. by rewrite app_nil_r.
Qed.

Lemma filter_keeps_all (h sc : JsVal) (l : list IHandlerConfig) :
  (forall e, e ∈ l -> matches h sc e = false) -> List.filter (keeps h sc) l = l.
Proof.
  induction l as [|e l IH]; intros Hall; simpl; [done|].
  unfold keeps at 1. rewrite (Hall e) by apply list_elem_of_here. simpl.
  f_equal. apply IH. intros e' He'. apply Hall. by apply list_elem_of_further.
Qed.

Lemma getHandlers_own_name (d : t) (eventName : string) :
  own_name eventName = true ->
  getHandlers d eventName = EventHandlers <$> handlers d !! eventName.
Proof.
  unfold own_name, getHandlers. intros Hown.
  destruct (handlers d !! eventName); [done|].
  by destruct (inherited_member prototype_members eventName).
Qed.

Lemma getHandlers_None (d : t) (eventName : string) :
  getHandlers d eventName = None
  <-> handlers d !! eventName = None /\ own_name eventName = true.
Proof.
  unfold own_name, getHandlers.
  destruct (handlers d !! eventName);
    destruct (inherited_member prototype_members eventName); simpl;
    split; try done; by intros [? ?].
Qed.

Lemma getHandlers_EventHandlers (d : t) (eventName : string)
    (l : list IHandlerConfig) :
  getHandlers d eventName = Some (EventHandlers l) <-> handlers d !! eventName = Some l.
Proof.
  unfold getHandlers.
  destruct (handlers d !! eventName);
    destruct (inherited_member prototype_members eventName); simpl;
    split; congruence.
Qed.

Lemma registered_lookup (d : t) (eventName : string) :
  registered d eventName = default [] (handlers d !! eventName).
Proof.
  unfold registered, getHandlers.
  destruct (handlers d !! eventName); [done|].
  by destruct (inherited_member prototype_members eventName).
Qed.


(** The loop over the indices from [i] applies the entries from [i] on, one
    after the other. *)
Lemma callHandlers_loop_in_order (args : JsVal) (fuel : nat) :
  forall (i : nat) (l : list IHandlerConfig) (results : list JsVal) (r : Realm),
    (length l - i <= fuel)%nat ->
    callHandlers_loop fuel i l args results r
    = apply_in_order (drop i l) args results r.
Proof.
  induction fuel as [|fuel IH]; intros i l results r Hfuel; simpl.
  - by rewrite drop_ge by lia.
  - destruct (l !! i) as [h|] eqn:Hh.
    + pose proof (lookup_lt_Some _ _ _ Hh) as Hlt.
      rewrite (drop_S l h i Hh). simpl. eff.
      destruct (slice args) as [xs|e]; simpl; [|done].
      destruct (fn_result (handler h) (scope h) xs) as [v|e]; [|done].
      by rewrite IH by lia.
    + apply lookup_ge_None in Hh. by rewrite drop_ge by lia.
Qed.

(** When every entry returns, each entry is applied once, in order, and what
    they return is collected. *)
Lemma apply_in_order_returns (xs : list JsVal) (l : list IHandlerConfig) :
  forall (rets results : list JsVal) (r : Realm),
    Forall2 (returns xs) l rets ->
    exists r',
      apply_in_order l (VArr xs) results r = (r', Normal (results ++ rets))
      /\ calls r' = calls r ++ map (invocation_of xs) l
      /\ posted r' = posted r
      /\ window r' = window r.
Proof.
  induction l as [|h l IH]; intros rets results r Hret.
  - inversion Hret; subst. exists r. simpl. rewrite !app_nil_r. done.
  - inversion Hret as [|? v ? rets' Hv Hrest]; subst.
    simpl. eff. unfold js_apply. rewrite Hv.
    edestruct (IH rets' (results ++ [v])) as (r' & Hrun & Hcalls & Hposted & Hwin);
      [exact Hrest|].
    exists r'. rewrite Hrun. rewrite <- app_assoc. simpl.
    repeat split; try done.
    rewrite Hcalls. simpl. rewrite <- app_assoc. reflexivity.
Qed.

Lemma callHandlers_returns (d : t) (eventName : string) (args : JsVal)
    (xs rets : list JsVal) (r : Realm) :
  own_name eventName = true ->
  js_or args (VArr []) = VArr xs ->
  Forall2 (returns xs) (registered d eventName) rets ->
  exists r',
    callHandlers d eventName args r = (r', Normal rets)
    /\ calls r' = calls r ++ map (invocation_of xs) (registered d eventName)
    /\ posted r' = posted r
    /\ window r' = window r.
Proof.
  intros Hown Hargs Hret. rewrite registered_lookup in *.
  unfold callHandlers. rewrite Hargs, (getHandlers_own_name d eventName Hown).
  destruct (handlers d !! eventName) as [l|]; simpl in *.
  - rewrite callHandlers_loop_in_order by lia. rewrite drop_0.
    apply (apply_in_order_returns xs l rets [] r Hret).
  - inversion Hret; subst. exists r. eff. rewrite app_nil_r. done.
Qed.

(** Whatever the handlers do, a dispatch applies a prefix of the entries of
    the event, and nothing else. *)
Lemma apply_in_order_prefix (args : JsVal) (l : list IHandlerConfig) :
  forall (results : list JsVal) (r : Realm),
  exists k,
    calls (apply_in_order l args results r).1
    = calls r
      ++ map (invocation_of (match slice args with
                             | Normal xs => xs
                             | Abrupt _ => []
                             end)) (take k l)
    /\ posted (apply_in_order l args results r).1 = posted r
    /\ window (apply_in_order l args results r).1 = window r.
Proof.
  induction l as [|h l IH]; intros results r.
  - exists 0%nat. simpl. rewrite app_nil_r. done.
  - simpl. eff. destruct (slice args) as [xs|e]; simpl.
    + unfold js_apply. destruct (fn_result (handler h) (scope h) xs) as [v|e].
      * destruct (IH (results ++ [v])
          (set_promises (fn_effect (handler h) xs)
             (log_call {| inv_fn := handler h; inv_this := scope h;
                          inv_args := xs |} r)))
          as (k & Hc & Hp & Hw).
        exists (S k). rewrite Hc, Hp, Hw. simpl. rewrite <- app_assoc. done.
      * exists 1%nat. simpl. by destruct l.
    + exists 0%nat. simpl. rewrite app_nil_r. done.
Qed.

Lemma callHandlers_prefix (d : t) (eventName : string) (args : JsVal) (r : Realm) :
  exists k,
    calls (callHandlers d eventName args r).1
    = calls r ++ map (invocation_of (dispatch_arguments args))
                     (take k (registered d eventName))
    /\ posted (callHandlers d eventName args r).1 = posted r
    /\ window (callHandlers d eventName args r).1 = window r.
Proof.
  unfold callHandlers, registered, dispatch_arguments.
  destruct (getHandlers d eventName) as [[l|len]|]; simpl.
  - rewrite callHandlers_loop_in_order by lia. rewrite drop_0.
    apply apply_in_order_prefix.
  - exists 0%nat. destruct (loop_enters len); eff; rewrite app_nil_r; done.
  - exists 0%nat. eff. rewrite app_nil_r. done.
Qed.

(** The first entry that throws ends the loop: the entries before it and
    that entry have been applied, the entries after it are not. *)
Lemma apply_in_order_throws (xs : list JsVal) (before : list IHandlerConfig) :
  forall (rets results : list JsVal) (r : Realm) (h : IHandlerConfig)
         (after : list IHandlerConfig) (e : Exception),
    Forall2 (returns xs) before rets ->
    fn_result (handler h) (scope h) xs = Abrupt e ->
    exists r',
      apply_in_order (before ++ h :: after) (VArr xs) results r = (r', Abrupt e)
      /\ calls r' = calls r ++ map (invocation_of xs) (before ++ [h])
      /\ posted r' = posted r
      /\ window r' = window r.
Proof.
  induction before as [|b before IH]; intros rets results r h after e Hret Hthrow.
  - simpl. eff. unfold js_apply. rewrite Hthrow. eexists. split; [reflexivity|].
    simpl. done.
  - inversion Hret as [|? v ? rets' Hv Hrest]; subst.
    simpl. eff. unfold js_apply. rewrite Hv.
    edestruct (IH rets' (results ++ [v])) as (r' & Hrun & Hcalls & Hposted & Hwin);
      [exact Hrest|exact Hthrow|].
    exists r'. rewrite Hrun. split; [reflexivity|].
    rewrite Hcalls. simpl. rewrite <- app_assoc. done.
Qed.

(** C4, amended.  [callHandlers] returns the empty sequence when the read
    of the table under the name finds nothing: no list is stored and the
    name is none of those every object inherits.  When a list is stored and
    every registered handler returns when it is applied, it applies each
    registered handler exactly once, in registration order, to a copy [xs]
    of the argument list with the handler's scope as [this], and returns
    what the handlers returned, in the same order.  When a handler throws,
    the handlers registered before it and that handler have been applied
    once each, those after it are not applied, and [callHandlers] throws
    what the handler threw.  When no list is stored and the name is that of
    an inherited member, nothing is applied, and [callHandlers] throws a
    [TypeError] if the [length] of the member is positive and returns the
    empty sequence otherwise. *)
Theorem callHandlers_in_registration_order (d : t) (eventName : string)
    (args : JsVal) (xs : list JsVal) (r : Realm) :
  js_or args (VArr []) = VArr xs ->
  (getHandlers d eventName = None
   <-> handlers d !! eventName = None /\ own_name eventName = true)
  /\ (getHandlers d eventName = None ->
      callHandlers d eventName args r = (r, Normal []))
  /\ (forall l rets,
        getHandlers d eventName = Some (EventHandlers l) ->
        Forall2 (returns xs) l rets ->
        exists r',
          callHandlers d eventName args r = (r', Normal rets)
          /\ calls r' = calls r ++ map (invocation_of xs) l
          /\ posted r' = posted r
          /\ window r' = window r)
  /\ (forall before h after rets e,
        getHandlers d eventName = Some (EventHandlers (before ++ h :: after)) ->
        Forall2 (returns xs) before rets ->
        fn_result (handler h) (scope h) xs = Abrupt e ->
        exists r',
          callHandlers d eventName args r = (r', Abrupt e)
          /\ calls r' = calls r ++ map (invocation_of xs) (before ++ [h])
          /\ posted r' = posted r
          /\ window r' = window r)
  /\ (forall len,
        getHandlers d eventName = Some (Inherited len) ->
        callHandlers d eventName args r
        = (r, if loop_enters len then Abrupt TypeError else Normal [])).
Proof.
  intros Hargs. split; [apply getHandlers_None|]. split; [|split; [|split]].
  - intros Hnone. unfold callHandlers. by rewrite Hnone.
  - intros l rets Hl Hret. unfold callHandlers. rewrite Hargs, Hl.
    rewrite callHandlers_loop_in_order by lia. rewrite drop_0.
    apply (apply_in_order_returns xs l rets [] r Hret).
  - intros before h after rets e Hl Hret Hthrow.
    unfold callHandlers. rewrite Hargs, Hl.
    rewrite callHandlers_loop_in_order by lia. rewrite drop_0.
    by apply (apply_in_order_throws xs before rets [] r h after e).
  - intros len Hl. unfold callHandlers. rewrite Hl.
    by destruct (loop_enters len).
Qed.

End DispatcherFacts.

Lemma postMessage_run (text origin : string) (r : Realm) :
  postMessage text origin r
  = if has_parent r
    then (log_post {| data := text; targetOrigin := origin |} r, Normal ())
    else (r, Abrupt TypeError).
Proof. unfold postMessage, has_parent. by destruct (parent (window r)). Qed.

(** ** [merge] *)

Section MergeFacts.
Context `{UserCode}.

Lemma merge_loop_inherited (source : JsVal) (attrs : list (string * JsVal)) :
  inherits_hasOwnProperty source = true ->
  forall (target : list (string * JsVal)) (r : Realm),
    merge_loop source attrs target r
    = (r, Normal (fold_left (fun t kv => js_set t kv.1 kv.2) attrs target)).
Proof.
  intros Hinh. induction attrs as [|[attr value] attrs IH]; intros target r.
  - reflexivity.
  - simpl. unfold has_own_property.
    destruct source; simpl in *; eff; try apply IH.
    apply negb_true_iff in Hinh. rewrite Hinh. simpl. apply IH.
Qed.

(** With the inherited test, [merge] applies no function and does not
    throw. *)
Lemma merge_inherited (target : list (string * JsVal)) (source : JsVal) (r : Realm) :
  inherits_hasOwnProperty source = true ->
  merge target source r = (r, Normal (merged target source)).
Proof.
  intros Hinh. unfold merge, merged.
  destruct (truthy source); [|done]. by apply merge_loop_inherited.
Qed.

End MergeFacts.

(** ** The post-message client *)

Section PostMessageFacts.
Context `{UserCode}.
Import PostMessageAddInClient.

Lemma in_realm_self {C A} (m : Eff Realm A) (w : World C) :
  self (in_realm m w).1 = self w.
Proof. unfold in_realm. by destruct (m (realm w)). Qed.

(** A request registers its continuations before anything can throw. *)
Lemma sendApiRequest_self (method : string) (succ fail sc args : JsVal) (w : World t) :
  self (sendApiRequest method succ fail sc args w).1
  = {| eventDispatcher := eventDispatcher (self w);
       nextCallbackId := increment (nextCallbackId (self w));
       callbacks := <[next_key (self w) :=
                        {| success := succ; failure := fail; scope := sc |}]>
                      (callbacks (self w)) |}.
Proof.
  unfold sendApiRequest, addCallback. eff.
  destruct (merge _ args (realm w)) as [r1 [message|e]]; simpl; [|done].
  rewrite postMessage_run. by destruct (has_parent r1).
Qed.

(** A request whose arguments are merged with the inherited test. *)
Lemma sendApiRequest_run (method : string) (succ fail sc args : JsVal) (w : World t) :
  inherits_hasOwnProperty args = true ->
  sendApiRequest method succ fail sc args w
  = let w1 := {| self := {| eventDispatcher := eventDispatcher (self w);
                            nextCallbackId := increment (nextCallbackId (self w));
                            callbacks :=
                              <[next_key (self w) :=
                                  {| success := succ; failure := fail; scope := sc |}]>
                                (callbacks (self w)) |};
                 realm := realm w |} in
    if has_parent (realm w) then
      ({| self := self w1;
          realm := log_post
                     {| data := JSON_stringify_object
                                  (merged [("id", VStr (next_key (self w)));
                                           ("method", VStr method)] args);
                        targetOrigin := "*" |} (realm w) |},
       Normal ())
    else (w1, Abrupt TypeError).
Proof.
  intros Hinh. unfold sendApiRequest, addCallback. eff.
  rewrite (merge_inherited _ args (realm w) Hinh). simpl.
  rewrite postMessage_run. by destruct (has_parent (realm w)).
Qed.

(** A response whose id has no pending call is ignored. *)
Lemma no_pending_call_no_effect (w : World t) (message id : JsVal) :
  get_prop message "id" = Normal id ->
  pending_call (self w) id = Normal None ->
  invokeResponseCallback message w = (w, Normal ()).
Proof.
  intros Hid Hnone. unfold invokeResponseCallback. eff.
  rewrite Hid. rewrite Hnone. reflexivity.
Qed.

(** A response whose id cannot be made a property key throws where the
    table is read. *)
Lemma pending_call_throws (w : World t) (message id : JsVal) (e : Exception) :
  get_prop message "id" = Normal id ->
  pending_call (self w) id = Abrupt e ->
  invokeResponseCallback message w = (w, Abrupt e).
Proof.
  intros Hid He. unfold invokeResponseCallback. eff.
  rewrite Hid. rewrite He. by destruct w.
Qed.

(** The key under which a pending call was found. *)
Lemma pending_call_found (c : t) (id : JsVal) (cb : ICallbackConfig) :
  pending_call c id = Normal (Some cb) ->
  truthy id = true
  /\ js_string id = Normal (to_string id)
  /\ callbacks c !! to_string id = Some cb.
Proof.
  unfold pending_call, js_string.
  destruct (truthy id); [|done]. destruct (converts id); [|done].
  intros Heq. injection Heq as Heq. done.
Qed.

Lemma run_continuation_calls (f : FnRef) (sc response : JsVal) (w : World t) :
  let w1 := (run_continuation f sc response w).1 in
  self w1 = self w
  /\ calls (realm w1) =
       calls (realm w) ++ [{| inv_fn := f; inv_this := sc; inv_args := [response] |}]
  /\ posted (realm w1) = posted (realm w)
  /\ promises (realm w1) = fn_effect f [response] (promises (realm w)).
Proof.
  unfold run_continuation. eff. unfold js_apply.
  destruct (fn_result f sc [response]); simpl; done.
Qed.

Lemma pending_after_removal (w : World t) (id : JsVal) (cb : ICallbackConfig) :
  pending_call (self w) id = Normal (Some cb) ->
  pending_call (self (without_pending (to_string id) w)) id = Normal None.
Proof.
  intros Hcb. destruct (pending_call_found _ _ _ Hcb) as (Ht & Hs & _).
  unfold pending_call, without_pending. simpl. rewrite Ht, Hs.
  by rewrite lookup_delete_eq.
Qed.

(** The method once the pending call is found: the call is removed, then at
    most one of its continuations is applied. *)
Lemma invoke_pending_cases (w : World t) (message id : JsVal) (cb : ICallbackConfig) :
  get_prop message "id" = Normal id ->
  pending_call (self w) id = Normal (Some cb) ->
  let w' := without_pending (to_string id) w in
  let response := js_or (js_get message "result") (VStr "") in
  let ok := js_get message "success" in
  invokeResponseCallback message w =
    if truthy ok && truthy (success cb) then
      (in_realm (js_apply_value (success cb) (scope cb) [response]);; mret ()) w'
    else if negb (truthy ok) && truthy (failure cb) then
      (in_realm (js_apply_value (failure cb) (scope cb) [response]);; mret ()) w'
    else (w', Normal ()).
Proof.
  intros Hid Hcb. unfold invokeResponseCallback. eff.
  rewrite Hid, Hcb. simpl.
  rewrite (get_prop_defined _ _ _ Hid "result").
  rewrite (get_prop_defined _ _ _ Hid "success").
  unfold without_pending.
  destruct (truthy (js_get message "success") && truthy (success cb)); [done|].
  destruct (negb (truthy (js_get message "success")) && truthy (failure cb)); done.
Qed.

Lemma apply_value_calls (v sc response : JsVal) (w : World t) :
  let w1 := ((in_realm (js_apply_value v sc [response]);; mret ()) w).1 in
  self w1 = self w
  /\ (calls (realm w1) = calls (realm w)
      \/ exists f, v = VFun f
           /\ (in_realm (js_apply_value v sc [response]);; mret ()) w
              = run_continuation f sc response w
           /\ calls (realm w1) =
                calls (realm w)
                ++ [{| inv_fn := f; inv_this := sc; inv_args := [response] |}]).
Proof.
  destruct v; try (eff; split; [done|by left]).
  split.
  - apply (run_continuation_calls f sc response w).
  - right. exists f. split; [done|]. split; [done|].
    apply (run_continuation_calls f sc response w).
Qed.

(** C1.  A response whose id has no pending call applies nothing and
    leaves the client and the page as they are; so does a response whose id
    cannot be made a property key, which throws.  When the id has a pending
    call, the call leaves the table, and only then is a continuation
    applied: at most one application is made, and it is of a continuation of
    that call, run in the state where the call is already removed.  When the
    response reports success and the call has a success continuation, that
    continuation is applied exactly once.  A second response with the same
    id then applies nothing and leaves the client, and so the table, as it
    is. *)
Theorem response_delivered_at_most_once (w : World t) (message id : JsVal) :
  get_prop message "id" = Normal id ->
  let key := to_string id in
  let w' := without_pending key w in
  let w1 := (invokeResponseCallback message w).1 in
  (pending_call (self w) id = Normal None ->
     invokeResponseCallback message w = (w, Normal ()))
  /\ (forall e, pending_call (self w) id = Abrupt e ->
     invokeResponseCallback message w = (w, Abrupt e))
  /\ (forall cb, pending_call (self w) id = Normal (Some cb) ->
      callbacks (self w1) = delete key (callbacks (self w))
      /\ (calls (realm w1) = calls (realm w)
          \/ exists f response,
               (success cb = VFun f \/ failure cb = VFun f)
               /\ invokeResponseCallback message w
                  = run_continuation f (scope cb) response w'
               /\ calls (realm w1) =
                    calls (realm w)
                    ++ [{| inv_fn := f; inv_this := scope cb;
                           inv_args := [response] |}])
      /\ (forall f, truthy (js_get message "success") = true ->
            success cb = VFun f ->
            calls (realm w1) =
              calls (realm w)
              ++ [{| inv_fn := f; inv_this := scope cb;
                     inv_args := [js_or (js_get message "result") (VStr "")] |}])
      /\ invokeResponseCallback message w1 = (w1, Normal ())).
Proof.
  intros Hid key w' w1. split.
  { intros Hnone. by apply (no_pending_call_no_effect w message id). }
  split.
  { intros e He. by apply (pending_call_throws w message id). }
  intros cb Hcb.
  pose proof (invoke_pending_cases w message id cb Hid Hcb) as Hrun.
  simpl in Hrun. fold key in Hrun. fold w' in Hrun.
  set (response := js_or (js_get message "result") (VStr "")) in *.
  assert (Hself : self w1 = self w'
          /\ (calls (realm w1) = calls (realm w)
              \/ exists f, (success cb = VFun f \/ failure cb = VFun f)
                   /\ invokeResponseCallback message w
                      = run_continuation f (scope cb) response w'
                   /\ calls (realm w1) =
                        calls (realm w)
                        ++ [{| inv_fn := f; inv_this := scope cb;
                               inv_args := [response] |}])).
  { subst w1. rewrite Hrun.
    destruct (truthy (js_get message "success") && truthy (success cb)).
    - destruct (apply_value_calls (success cb) (scope cb) response w')
        as [Hs [Hc | (f & Hf & Heq & Hc)]].
      + split; [done|]. by left.
      + split; [done|]. right. exists f.
        split; [by left|]. split; [exact Heq|exact Hc].
    - destruct (negb (truthy (js_get message "success")) && truthy (failure cb)).
      + destruct (apply_value_calls (failure cb) (scope cb) response w')
          as [Hs [Hc | (f & Hf & Heq & Hc)]].
        * split; [done|]. by left.
        * split; [done|]. right. exists f.
          split; [by right|]. split; [exact Heq|exact Hc].
      + split; [done|]. by left. }
  destruct Hself as [Hself Hcalls].
  split; [by rewrite Hself|].
  split; [destruct Hcalls as [?|(f & ? & ? & ?)]; [by left|right; eauto]|].
  split.
  - intros f Hok Hf. subst w1. rewrite Hrun, Hok, Hf. simpl.
    apply (run_continuation_calls f (scope cb) response w').
  - apply (no_pending_call_no_effect w1 message id Hid).
    rewrite Hself. apply (pending_after_removal w id cb Hcb).
Qed.

(** C5, amended.  For a response whose id has a pending call: when [success]
    is truthy only the success continuation is applied, when it is falsy
    only the failure continuation, in both cases once, with the scope stored
    in the call as [this] and with one argument: the [result] of the
    envelope when that is truthy, and the empty string whenever it is falsy
    (absent, [null], [false], [0] or the empty string). *)
Theorem response_selects_continuation (w : World t) (message id : JsVal)
    (cb : ICallbackConfig) :
  get_prop message "id" = Normal id ->
  pending_call (self w) id = Normal (Some cb) ->
  let result := js_get message "result" in
  let ok := js_get message "success" in
  let response := js_or result (VStr "") in
  let w' := without_pending (to_string id) w in
  let w1 := (invokeResponseCallback message w).1 in
  (forall f, truthy ok = true -> success cb = VFun f ->
     invokeResponseCallback message w = run_continuation f (scope cb) response w'
     /\ calls (realm w1) =
          calls (realm w)
          ++ [{| inv_fn := f; inv_this := scope cb; inv_args := [response] |}])
  /\ (forall g, truthy ok = false -> failure cb = VFun g ->
     invokeResponseCallback message w = run_continuation g (scope cb) response w'
     /\ calls (realm w1) =
          calls (realm w)
          ++ [{| inv_fn := g; inv_this := scope cb; inv_args := [response] |}])
  /\ (truthy result = true -> response = result)
  /\ (truthy result = false -> response = VStr "").
Proof.
  intros Hid Hcb result ok response w' w1.
  pose proof (invoke_pending_cases w message id cb Hid Hcb) as Hrun.
  simpl in Hrun. fold result ok response w' in Hrun.
  split; [|split; [|split]].
  - intros f Hok Hf. split.
    + rewrite Hrun, Hok, Hf. reflexivity.
    + subst w1. rewrite Hrun, Hok, Hf. simpl.
      apply (run_continuation_calls f (scope cb) response w').
  - intros g Hok Hg. split.
    + rewrite Hrun, Hok, Hg. reflexivity.
    + subst w1. rewrite Hrun, Hok, Hg. simpl.
      apply (run_continuation_calls g (scope cb) response w').
  - intros Ht. unfold response, js_or. by rewrite Ht.
  - intros Hf. unfold response, js_or. by rewrite Hf.
Qed.

(** C2, amended.  A frame whose text is not valid JSON makes the listener
    throw the [SyntaxError] of [JSON.parse] (and one whose data cannot be
    made a text, its [TypeError]); a frame that parses to a falsy value, or
    to a value with neither a truthy [event] nor a truthy [id], is dropped
    without throwing.  In all these cases the client and the page are left
    as they were. *)
Theorem malformed_frame_outcome (w : World t) (event : MessageEvent) :
  (forall text,
     js_string (message_data event) = Normal text ->
     JSON_parse text = None ->
     onMessageReceived event w = (w, Abrupt SyntaxError))
  /\ (forall e,
        JSON_parse_value (message_data event) = Abrupt e ->
        onMessageReceived event w = (w, Abrupt e))
  /\ (forall message,
        JSON_parse_value (message_data event) = Normal message ->
        truthy message = false
        \/ (truthy (js_get message "event") = false
            /\ truthy (js_get message "id") = false) ->
        onMessageReceived event w = (w, Normal ())).
Proof.
  unfold onMessageReceived. split; [|split].
  - intros text Htext Hparse. unfold JSON_parse_value. rewrite Htext, Hparse.
    by destruct w.
  - intros e ->. by destruct w.
  - intros message -> Hshape. eff.
    destruct (truthy message) eqn:Hm; [|done].
    destruct Hshape as [?|[He Hi]]; [done|].
    unfold isApiEvent, isApiResponse. eff.
    rewrite !get_prop_truthy by done. rewrite He, Hi. reflexivity.
Qed.

(** The dispatch of an envelope once the handlers have returned. *)
Lemma dispatchApiEvent_returns (w : World t) (message apiEvent : JsVal)
    (name : string) (xs rets : list JsVal) :
  get_prop message "event" = Normal apiEvent ->
  truthy apiEvent = true ->
  js_string (js_get apiEvent "name") = Normal name ->
  js_or (js_get apiEvent "args") (VArr []) = VArr xs ->
  let l := registered (eventDispatcher (self w)) name in
  let id := js_get apiEvent "id" in
  own_name name = true ->
  Forall2 (returns xs) l rets ->
  exists w',
    dispatchApiEvent message w
    = (w', if truthy id && negb (has_parent (realm w))
           then Abrupt TypeError else Normal ())
    /\ self w' = self w
    /\ calls (realm w') = calls (realm w) ++ map (invocation_of xs) l
    /\ posted (realm w') =
         posted (realm w)
         ++ (if truthy id && has_parent (realm w)
             then [acknowledgement id (any rets is_true)] else []).
Proof.
  intros Hev Ht Hname Hargs l id Hown Hret.
  destruct (callHandlers_returns (eventDispatcher (self w)) name
              (js_get apiEvent "args") xs rets (realm w) Hown Hargs Hret)
    as (r' & Hrun & Hcalls & Hposted & Hwin).
  assert (Hpar : has_parent r' = has_parent (realm w))
    by (unfold has_parent; by rewrite Hwin).
  unfold dispatchApiEvent. eff. rewrite Hev.
  rewrite !get_prop_truthy by done. rewrite Hname. simpl. rewrite Hrun. fold id.
  destruct (truthy id) eqn:Hid; simpl.
  - rewrite postMessage_run, Hpar.
    destruct (has_parent (realm w)); simpl.
    + eexists. split; [reflexivity|]. simpl. by rewrite Hcalls, Hposted.
    + eexists. split; [reflexivity|]. simpl. by rewrite Hcalls, Hposted, app_nil_r.
  - eexists. split; [reflexivity|]. simpl. by rewrite Hcalls, Hposted, app_nil_r.
Qed.

(** An event whose name cannot be made a property key throws where the
    dispatcher reads its table. *)
Lemma dispatchApiEvent_name_throws (w : World t) (message apiEvent : JsVal)
    (e : Exception) :
  get_prop message "event" = Normal apiEvent ->
  truthy apiEvent = true ->
  js_string (js_get apiEvent "name") = Abrupt e ->
  dispatchApiEvent message w = (w, Abrupt e).
Proof.
  intros Hev Ht Hname. unfold dispatchApiEvent. eff. rewrite Hev.
  rewrite !get_prop_truthy by done. rewrite Hname. by destruct w.
Qed.

(** C6, amended.  For an event envelope made of data, whose [args] is an
    array or absent and whose [name] is none of the names every object
    inherits, and provided that the handlers registered under the name
    return: each of them is applied once, in order, to the arguments; and
    exactly one acknowledgement [{eventId: id, stopEvent}] is posted to the
    parent when the [id] of the envelope is truthy and the page has a
    parent, none when the [id] is falsy or absent.  [stopEvent] is [true]
    exactly when some handler returned the boolean [true].  Without a
    parent a truthy [id] makes the dispatch throw a [TypeError] once the
    handlers have run.  Under an inherited name whose member has a positive
    [length], and for a name that cannot be made a property key, the
    dispatch throws a [TypeError] at once: nothing is applied and nothing
    is posted. *)
Theorem event_dispatched_and_acknowledged (w : World t) (message apiEvent : JsVal) :
  plain_data message = true ->
  get_prop message "event" = Normal apiEvent ->
  truthy apiEvent = true ->
  let id := js_get apiEvent "id" in
  (forall name xs rets,
     js_string (js_get apiEvent "name") = Normal name ->
     js_or (js_get apiEvent "args") (VArr []) = VArr xs ->
     own_name name = true ->
     Forall2 (returns xs) (registered (eventDispatcher (self w)) name) rets ->
     exists w',
       dispatchApiEvent message w
       = (w', if truthy id && negb (has_parent (realm w))
              then Abrupt TypeError else Normal ())
       /\ self w' = self w
       /\ calls (realm w')
          = calls (realm w)
            ++ map (invocation_of xs) (registered (eventDispatcher (self w)) name)
       /\ posted (realm w') =
            posted (realm w)
            ++ (if truthy id && has_parent (realm w)
                then [acknowledgement id (any rets is_true)] else [])
       /\ (any rets is_true = true <-> VBool true ∈ rets))
  /\ (forall name len,
       js_string (js_get apiEvent "name") = Normal name ->
       MulticastDispatcher.getHandlers (eventDispatcher (self w)) name
       = Some (MulticastDispatcher.Inherited len) ->
       MulticastDispatcher.loop_enters len = true ->
       dispatchApiEvent message w = (w, Abrupt TypeError))
  /\ (js_string (js_get apiEvent "name") = Abrupt TypeError ->
       dispatchApiEvent message w = (w, Abrupt TypeError)).
Proof.
  intros _ Hev Ht id. split; [|split].
  - intros name xs rets Hname Hargs Hown Hret.
    destruct (dispatchApiEvent_returns w message apiEvent name xs rets Hev Ht
                Hname Hargs Hown Hret) as (w' & Hrun & Hself & Hcalls & Hposted).
    exists w'. repeat split; try done; apply any_is_true_iff.
  - intros name len Hname Hl Hlen. unfold dispatchApiEvent. eff. rewrite Hev.
    rewrite !get_prop_truthy by done. rewrite Hname. simpl.
    unfold MulticastDispatcher.callHandlers. rewrite Hl, Hlen. simpl.
    by destruct w.
  - intros Hname. by apply (dispatchApiEvent_name_throws w message apiEvent).
Qed.


Lemma dispatchApiEvent_self (message : JsVal) (w : World t) :
  self (dispatchApiEvent message w).1 = self w.
Proof.
  unfold dispatchApiEvent. eff.
  destruct (get_prop message "event") as [apiEvent|]; simpl; [|done].
  destruct (get_prop apiEvent "name") as [name|]; simpl; [|done].
  destruct (get_prop apiEvent "args") as [args|]; simpl; [|done].
  destruct (js_string name) as [eventName|]; simpl; [|done].
  destruct (MulticastDispatcher.callHandlers _ _ _ _) as [r' [results|e]]; simpl; [|done].
  destruct (get_prop apiEvent "id") as [id|]; simpl; [|done].
  destruct (truthy id); simpl; [|done].
  rewrite postMessage_run. by destruct (has_parent r').
Qed.



End PostMessageFacts.

(** ** Awaitable variants *)

Section AwaitableFacts.
Context `{UserCode}.
Import PostMessageAddInClient.

(** The awaitable variants of the post-message client are all of one shape:
    a promise whose two settling functions are the continuations of a
    request. *)
Lemma awaitable_variants_shape (message alert : JsVal) :
  getChatRoomAsync
  = new_Promise (fun resolve reject =>
      sendApiRequest "GetChatRoom" resolve reject VUndefined VNull)
  /\ getLocalUserDetailsAsync
  = new_Promise (fun resolve reject =>
      sendApiRequest "GetLocalUserDetails" resolve reject VUndefined VNull)
  /\ getDomainDetailsAsync
  = new_Promise (fun resolve reject =>
      sendApiRequest "GetDomainDetails" resolve reject VUndefined VNull)
  /\ getMaxMessageLengthAsync
  = new_Promise (fun resolve reject =>
      sendApiRequest "GetMaxMessageLength" resolve reject VUndefined VNull)
  /\ sendMessageAsync message alert
  = new_Promise (fun resolve reject =>
      sendApiRequest "SendMessage" resolve reject VUndefined
        (VObj [("message", message); ("alert", alert)])).
Proof. repeat split. Qed.

(** Such a request returns a new, pending promise and registers its settling
    functions as the pending call. *)
Lemma awaitable_request_pending (w : World t) (method : string) (args : JsVal) :
  has_parent (realm w) = true ->
  inherits_hasOwnProperty args = true ->
  let request := new_Promise (fun resolve reject =>
                   sendApiRequest method resolve reject VUndefined args) in
  let p := length (promises (realm w)) in
  let key := callbackPrefix +:+ pretty (nextCallbackId (self w)) in
  (request w).2 = Normal (VPromise p)
  /\ promises (realm (request w).1) = promises (realm w) ++ [Pending]
  /\ callbacks (self (request w).1) !! key
     = Some {| success := VFun (ResolveFn p); failure := VFun (RejectFn p);
               scope := VUndefined |}.
Proof.
  intros Hpar Hinh. unfold new_Promise. simpl.
  rewrite (sendApiRequest_run method _ _ _ args _ Hinh). simpl.
  unfold has_parent in *. simpl. rewrite Hpar. simpl.
  repeat split. apply lookup_insert_eq.
Qed.

(** The response settles the promise: it is fulfilled with the value the
    success continuation receives, or rejected with the value the failure
    continuation receives. *)
Lemma awaitable_response_settles (w : World t) (message id : JsVal) (p : nat) :
  get_prop message "id" = Normal id ->
  pending_call (self w) id
  = Normal (Some {| success := VFun (ResolveFn p); failure := VFun (RejectFn p);
                    scope := VUndefined |}) ->
  promises (realm w) !! p = Some Pending ->
  let response := js_or (js_get message "result") (VStr "") in
  promises (realm (invokeResponseCallback message w).1) !! p
  = Some (if truthy (js_get message "success")
          then Fulfilled response
          else Rejected (Thrown response)).
Proof.
  intros Hid Hcb Hp response.
  rewrite (invoke_pending_cases w message id _ Hid Hcb). simpl.
  assert (Hlt : (p < length (promises (realm w)))%nat)
    by (eapply lookup_lt_Some; eauto).
  destruct (truthy (js_get message "success")); simpl; eff;
    unfold settle; rewrite Hp; by apply list_lookup_insert_eq.
Qed.

End AwaitableFacts.

(** ** The direct client *)

Section DirectFacts.
Context `{UserCode}.
Import DirectAddInClient.

(** C3, at the failing input.  The class [DirectAddInClient] defines none of
    the five awaitable operations that [IAddInClient] declares: calling one
    on a direct client throws a [TypeError] and does nothing else. *)
Theorem direct_client_lacks_awaitable_variants (w : World DirectAddInClient.t)
    (args : list JsVal) :
  Forall (fun op => call_member (DirectAddInClient.member op) args w
                    = (w, Abrupt TypeError)) awaitable_ops.
Proof. repeat constructor. Qed.

(** C8, at the failing input.  The constructor stores the three methods in
    the slots of the window, but stores them without their instance: when
    the host calls a slot, [this] is the window, [this.dispatcher] is
    [undefined], and the call throws before any handler is reached. *)
Theorem installed_handlers_lose_the_instance (r : Realm) (c : DirectAddInClient.t)
    (message sender : JsVal) :
  let r1 := (DirectAddInClient.constructor r).1 in
  let w := {| self := c; realm := r1 |} in
  MessageReceived (window r1) = Some messageReceivedHandler_method
  /\ MessagePosting (window r1) = Some beforeMessagePostHandler_method
  /\ Closing (window r1) = Some closingHandler_method
  /\ host_calls MessageReceived [message; sender] w = (w, Abrupt TypeError)
  /\ host_calls MessagePosting [message] w = (w, Abrupt TypeError)
  /\ host_calls Closing [] w = (w, Abrupt TypeError).
Proof. repeat split. Qed.

(** Run on the instance, the pre-send method does forward to the dispatcher
    and reports whether some handler returned [true]. *)
Lemma beforeMessagePostHandler_on_instance (w : World DirectAddInClient.t)
    (message : JsVal) (rets : list JsVal) :
  let l := registered (dispatcher (self w)) "beforemessagesend" in
  Forall2 (returns [message]) l rets ->
  exists w',
    beforeMessagePostHandler ThisClient message w
    = (w', Normal (VBool (any rets is_true)))
    /\ self w' = self w
    /\ calls (realm w') = calls (realm w) ++ map (invocation_of [message]) l
    /\ (any rets is_true = true <-> VBool true ∈ rets).
Proof.
  intros l Hret.
  destruct (callHandlers_returns (dispatcher (self w)) "beforemessagesend"
              (VArr [message]) [message] rets (realm w) eq_refl eq_refl Hret)
    as (r' & Hrun & Hcalls & _).
  unfold beforeMessagePostHandler. eff. rewrite Hrun.
  eexists. split; [reflexivity|]. simpl.
  repeat split; try done; apply any_is_true_iff.
Qed.

End DirectFacts.

(** ** The selector *)

(** The constructor of the post-message client registers at once when the
    document is complete, and that throws on a page without a parent. *)
Lemma post_message_constructor_run (r : Realm) :
  PostMessageAddInClient.constructor r
  = if String.eqb (readyState (window r)) "complete" then
      if has_parent r
      then (log_post register_frame r, Normal PostMessageAddInClient.initial)
      else (r, Abrupt TypeError)
    else (r, Normal PostMessageAddInClient.initial).
Proof.
  unfold PostMessageAddInClient.constructor, PostMessageAddInClient.register.
  destruct (String.eqb (readyState (window r)) "complete"); [|done].
  eff. rewrite postMessage_run. by destruct (has_parent r).
Qed.

(** C7, amended.  The selector constructs the direct client exactly when
    [window.external] exposes [GetChatRoom], or [window.addins] exposes it,
    or the page can read the location of its parent; otherwise it runs the
    constructor of the post-message client.  That constructor yields the
    post-message client, except on a page without a parent whose document
    is complete: there it throws a [TypeError] when it posts [Register],
    and the selector yields no client.  In particular a page that can read
    its parent's location gets the direct client even without any host
    object, and a host object with [GetChatRoom] gives the direct client
    whatever the parent allows. *)
Theorem selector_choice (r : Realm) :
  let w := window r in
  (selected r = Some DirectTransport <->
     has_marker (external w) = true \/ has_marker (addins w) = true
     \/ parent_readable w = true)
  /\ (selects_direct w = false ->
      createAddInClient r
      = (c ← PostMessageAddInClient.constructor; mret (PostMessage c)) r)
  /\ (selected r = Some PostMessageTransport <->
     has_marker (external w) = false /\ has_marker (addins w) = false
     /\ parent_readable w = false
     /\ (has_parent r = true \/ String.eqb (readyState w) "complete" = false))
  /\ (selected r = None <->
     has_marker (external w) = false /\ has_marker (addins w) = false
     /\ has_parent r = false /\ String.eqb (readyState w) "complete" = true)
  /\ (parent_readable w = true -> selected r = Some DirectTransport)
  /\ (has_marker (external w) = true \/ has_marker (addins w) = true ->
     selected r = Some DirectTransport).
Proof.
  intros w.
  assert (Hsel : selected r =
            if has_marker (external w) || has_marker (addins w)
               || parent_readable w
            then Some DirectTransport
            else if negb (has_parent r) && String.eqb (readyState w) "complete"
                 then None else Some PostMessageTransport).
  { unfold selected, createAddInClient, selects_direct, isCrossDomain,
      has_marker, parent_readable. fold w.
    assert (Hpm : match ((c ← PostMessageAddInClient.constructor;
                          mret (PostMessage c)) r).2 with
                  | Normal c => Some (transport_of c)
                  | Abrupt _ => None
                  end
                  = if negb (has_parent r) && String.eqb (readyState w) "complete"
                    then None else Some PostMessageTransport).
    { eff. rewrite post_message_constructor_run. fold w.
      destruct (String.eqb (readyState w) "complete"), (has_parent r); done. }
    destruct (truthy (js_and (external w) (js_get (external w) "GetChatRoom")));
      [reflexivity|].
    destruct (truthy (js_and (addins w) (js_get (addins w) "GetChatRoom")));
      [reflexivity|].
    simpl. destruct (parent w) as [| |href]; simpl.
    - exact Hpm.
    - exact Hpm.
    - destruct (is_defined href); simpl; [reflexivity|]. exact Hpm. }
  assert (Hreadable : parent_readable w = true -> has_parent r = true).
  { unfold parent_readable, has_parent. fold w. by destruct (parent w). }
  split; [|split; [|split; [|split; [|split]]]].
  - rewrite Hsel.
    destruct (has_marker (external w)), (has_marker (addins w)),
      (parent_readable w); simpl; split; try (intros; by auto);
      try (intros [?|[?|?]]; done);
      destruct (negb (has_parent r) && String.eqb (readyState w) "complete"); done.
  - intros Hno. unfold createAddInClient. fold w. by rewrite Hno.
  - rewrite Hsel.
    destruct (has_marker (external w)), (has_marker (addins w)),
      (parent_readable w) eqn:Hr; simpl; split;
      try done; try (intros (? & ? & ? & ?); done).
    + destruct (has_parent r), (String.eqb (readyState w) "complete"); simpl;
        try done; intros _; repeat split; auto.
    + intros (_ & _ & _ & [Hp|Hc]).
      * by rewrite Hp.
      * rewrite Hc. by rewrite andb_false_r.
  - rewrite Hsel.
    destruct (has_marker (external w)), (has_marker (addins w)),
      (parent_readable w) eqn:Hr; simpl; split;
      try done; try (intros (? & ? & ? & ?); done).
    + intros (_ & _ & Hp & _). rewrite Hreadable in Hp; done.
    + destruct (has_parent r), (String.eqb (readyState w) "complete"); simpl; done.
    + intros (_ & _ & -> & ->). done.
  - intros Hr. rewrite Hsel, Hr. by rewrite orb_true_r.
  - intros [Hm|Hm]; rewrite Hsel, Hm; simpl; [done|].
    by rewrite orb_true_r.
Qed.

(** ** The statements at concrete inputs *)



Lemma callHandlers_in_registration_order_witness :
  exists r',
    @MulticastDispatcher.callHandlers example_code example_dispatcher
      "beforemessagesend" (VArr [VStr "hi"]) cross_origin_realm
    = (r', Normal [VBool false; VBool true; VBool false])
    /\ calls r' = map (invocation_of [VStr "hi"]) example_entries.
Proof.
  destruct (@callHandlers_in_registration_order example_code example_dispatcher
              "beforemessagesend" (VArr [VStr "hi"]) [VStr "hi"] cross_origin_realm
              eq_refl) as (_ & _ & Hsome & _).
  destruct (Hsome example_entries [VBool false; VBool true; VBool false] eq_refl)
    as (r' & Hrun & Hcalls & _).
  - repeat constructor.
  - exists r'. split; [exact Hrun|exact Hcalls].
Defined.

(** C4 as stated fails when a handler throws: of the two handlers
    registered for the event only the first is applied, and [callHandlers]
    returns no sequence but throws what that handler threw. *)
Lemma callHandlers_stops_at_a_throwing_handler :
  MulticastDispatcher.getHandlers example_throwing_dispatcher "closing"
  = Some (MulticastDispatcher.EventHandlers
            [ {| MulticastDispatcher.handler := UserFn 2;
                 MulticastDispatcher.scope := VUndefined |};
              {| MulticastDispatcher.handler := UserFn 1;
                 MulticastDispatcher.scope := VUndefined |} ])
  /\ (@MulticastDispatcher.callHandlers example_code example_throwing_dispatcher
        "closing" (VArr []) cross_origin_realm).2
     = Abrupt (Thrown (VStr "boom"))
  /\ calls (@MulticastDispatcher.callHandlers example_code example_throwing_dispatcher
              "closing" (VArr []) cross_origin_realm).1
     = [ {| inv_fn := UserFn 2; inv_this := VUndefined; inv_args := [] |} ].
Proof. repeat split. Qed.

Lemma response_delivered_at_most_once_witness :
  PostMessageAddInClient.callbacks
    (self (@PostMessageAddInClient.invokeResponseCallback example_code
             example_response example_pending).1) = ∅
  /\ calls (realm (@PostMessageAddInClient.invokeResponseCallback example_code
                     example_response example_pending).1)
     = [ {| inv_fn := UserFn 3; inv_this := VRef 7; inv_args := [VStr "X"] |} ]
  /\ @PostMessageAddInClient.invokeResponseCallback example_code example_response
       (@PostMessageAddInClient.invokeResponseCallback example_code
          example_response example_pending).1
     = ((@PostMessageAddInClient.invokeResponseCallback example_code
           example_response example_pending).1,
        Normal ()).
Proof.
  destruct (@response_delivered_at_most_once example_code example_pending
              example_response (VStr "cb-1") eq_refl) as (_ & _ & Hpending).
  destruct (Hpending example_callback eq_refl) as (Htable & _ & Honce & Hagain).
  split; [|split].
  - rewrite Htable. reflexivity.
  - rewrite (Honce (UserFn 3) eq_refl eq_refl). reflexivity.
  - exact Hagain.
Defined.

Lemma response_selects_continuation_witness :
  calls (realm (@PostMessageAddInClient.invokeResponseCallback example_code
                  (VObj [("id", VStr "cb-2"); ("success", VBool false);
                         ("result", VStr "boom")])
                  (@PostMessageAddInClient.getChatRoom example_code (VFun (UserFn 3))
                     (VFun (UserFn 4)) (VRef 7) example_pending).1).1)
  = [ {| inv_fn := UserFn 4; inv_this := VRef 7; inv_args := [VStr "boom"] |} ].
Proof.
  destruct (@response_selects_continuation example_code
              (@PostMessageAddInClient.getChatRoom example_code (VFun (UserFn 3))
                 (VFun (UserFn 4)) (VRef 7) example_pending).1
              (VObj [("id", VStr "cb-2"); ("success", VBool false);
                     ("result", VStr "boom")])
              (VStr "cb-2") example_callback eq_refl eq_refl)
    as (_ & Hfailure & _).
  destruct (Hfailure (UserFn 4) eq_refl eq_refl) as [_ Hcalls].
  rewrite Hcalls. reflexivity.
Defined.

(** C5 as stated fails for a result that is present but falsy: the response
    [{"id":"cb-1","success":true,"result":false}] makes the success
    continuation receive the empty string, not [false]. *)
Lemma falsy_result_is_replaced :
  JSON_parse (json_text "{'id':'cb-1','success':true,'result':false}")
  = Some (VObj [("id", VStr "cb-1"); ("success", VBool true); ("result", VBool false)])
  /\ calls (realm (@PostMessageAddInClient.onMessageReceived example_code
                     (frame "{'id':'cb-1','success':true,'result':false}")
                     example_pending).1)
     = [ {| inv_fn := UserFn 3; inv_this := VRef 7; inv_args := [VStr ""] |} ].
Proof. split; vm_compute; reflexivity. Qed.

Lemma malformed_frame_outcome_witness :
  @PostMessageAddInClient.onMessageReceived example_code (frame "{'id':")
    example_pending
  = (example_pending, Abrupt SyntaxError)
  /\ @PostMessageAddInClient.onMessageReceived example_code
       (frame "{'method':'Ping'}") example_pending
  = (example_pending, Normal ()).
Proof.
  split.
  - destruct (@malformed_frame_outcome example_code example_pending (frame "{'id':"))
      as [Hthrow _].
    apply (Hthrow (json_text "{'id':")); [reflexivity|].
    vm_compute. reflexivity.
  - destruct (@malformed_frame_outcome example_code example_pending
                (frame "{'method':'Ping'}")) as (_ & _ & Hdrop).
    apply (Hdrop (VObj [("method", VStr "Ping")])).
    + vm_compute. reflexivity.
    + right. split; reflexivity.
Defined.

(** C2 as stated fails for a frame that is not valid JSON: the listener
    does not return, it throws. *)
Lemma invalid_json_throws :
  @PostMessageAddInClient.onMessageReceived example_code (frame "{") example_pending
  = (example_pending, Abrupt SyntaxError)
  /\ @PostMessageAddInClient.onMessageReceived example_code (frame "{") example_pending
  <> (example_pending, Normal ()).
Proof. split; [vm_compute; reflexivity|]. vm_compute. intros Heq. inversion Heq. Qed.

Lemma event_dispatched_and_acknowledged_witness :
  exists w',
    @PostMessageAddInClient.dispatchApiEvent example_code (example_event (VNum 7))
      example_listening
    = (w', Normal ())
    /\ calls (realm w') = map (invocation_of [VStr "hi"]) example_entries
    /\ posted (realm w')
       = [ {| data := json_text "{'eventId':7,'stopEvent':true}";
              targetOrigin := "*" |} ].
Proof.
  destruct (@event_dispatched_and_acknowledged example_code example_listening
              (example_event (VNum 7))
              (VObj [("name", VStr "beforemessagesend"); ("args", VArr [VStr "hi"]);
                     ("id", VNum 7)])
              eq_refl eq_refl eq_refl) as [Hreturns _].
  destruct (Hreturns "beforemessagesend" [VStr "hi"]
              [VBool false; VBool true; VBool false] eq_refl eq_refl eq_refl)
    as (w' & Hrun & _ & Hcalls & Hposted & _).
  - repeat constructor.
  - exists w'. split; [exact Hrun|]. split; [exact Hcalls|].
    rewrite Hposted. vm_compute. reflexivity.
Defined.

(** C6 as stated fails for an envelope whose id is present but falsy: the
    event [{"name":"beforemessagesend","args":["hi"],"id":0}] is dispatched
    to the three handlers and nothing is posted to the parent. *)
Lemma falsy_event_id_is_not_acknowledged :
  js_get (js_get (example_event (VNum 0)) "event") "id" = VNum 0
  /\ (@PostMessageAddInClient.dispatchApiEvent example_code (example_event (VNum 0))
        example_listening).2
     = Normal ()
  /\ calls (realm (@PostMessageAddInClient.dispatchApiEvent example_code
                     (example_event (VNum 0)) example_listening).1)
     = map (invocation_of [VStr "hi"]) example_entries
  /\ posted (realm (@PostMessageAddInClient.dispatchApiEvent example_code
                      (example_event (VNum 0)) example_listening).1) = [].
Proof. repeat split. Qed.



Lemma selector_choice_witness :
  selected same_origin_realm = Some DirectTransport
  /\ selected cross_origin_realm = Some PostMessageTransport
  /\ selected (example_realm
                 (example_window HrefDenied VUndefined
                    (VObj [("GetChatRoom", VFun (UserFn 9))])))
     = Some DirectTransport.
Proof.
  split; [|split].
  - destruct (selector_choice same_origin_realm) as (_ & _ & _ & _ & Hreadable & _).
    apply Hreadable. reflexivity.
  - destruct (selector_choice cross_origin_realm) as (_ & _ & Hpm & _).
    apply Hpm. repeat split. by left.
  - destruct (selector_choice
                (example_realm
                   (example_window HrefDenied VUndefined
                      (VObj [("GetChatRoom", VFun (UserFn 9))]))))
      as (_ & _ & _ & _ & _ & Hmarker).
    apply Hmarker. right. reflexivity.
Defined.

(** C7 as stated fails in its first particular case: a page that can read
    the location of its parent and has no host object gets the direct
    client, not the post-message client. *)
Lemma readable_parent_selects_direct :
  parent_readable (window same_origin_realm) = true
  /\ has_marker (external (window same_origin_realm)) = false
  /\ has_marker (addins (window same_origin_realm)) = false
  /\ selected same_origin_realm = Some DirectTransport
  /\ selected same_origin_realm <> Some PostMessageTransport.
Proof. repeat split. intros Heq. inversion Heq. Qed.

(** ** Scenarios *)

(** [sendMessage("hello", false, onSuccess, onFailure)] posts one envelope,
    and the response [{"id":"cb-1","success":true,"result":true}] hands [true]
    to [onSuccess]. *)
Example send_message_round_trip :
  posted (realm example_pending)
  = [ {| data :=
           json_text "{'id':'cb-1','method':'SendMessage','message':'hello','alert':false}";
         targetOrigin := "*" |} ]
  /\ calls (realm (@PostMessageAddInClient.onMessageReceived example_code
                     (frame "{'id':'cb-1','success':true,'result':true}")
                     example_pending).1)
     = [ {| inv_fn := UserFn 3; inv_this := VRef 7; inv_args := [VBool true] |} ].
Proof. split; vm_compute; reflexivity. Qed.

(** Results [false, true, false] aggregate to [true], three [false] to
    [false]; a truthy result that is not the boolean [true] does not count. *)
Example suppression_aggregate :
  any [VBool false; VBool true; VBool false] is_true = true
  /\ any [VBool false; VBool false; VBool false] is_true = false
  /\ any [VNum 1; VStr "true"] is_true = false.
Proof. repeat split. Qed.

(** A second request is registered under ["cb-2"]. *)
Example correlation_ids_count_up :
  map fst (map_to_list
    (PostMessageAddInClient.callbacks
       (self (@PostMessageAddInClient.getChatRoom example_code (VFun (UserFn 3))
                (VFun (UserFn 4)) (VRef 7) example_pending).1)))
  = ["cb-1"; "cb-2"].
Proof. vm_compute. reflexivity. Qed.

(** [getChatRoomAsync()] followed by a successful response fulfils the
    promise with the result. *)
Example awaitable_round_trip :
  (@PostMessageAddInClient.getChatRoomAsync example_code example_client).2
  = Normal (VPromise 0)
  /\ promises (realm (@PostMessageAddInClient.onMessageReceived example_code
                        (frame "{'id':'cb-1','success':true,'result':{'Name':'lobby'}}")
                        (@PostMessageAddInClient.getChatRoomAsync example_code
                           example_client).1).1)
     = [Fulfilled (VObj [("Name", VStr "lobby")])]
  /\ promises (realm (@PostMessageAddInClient.onMessageReceived example_code
                        (frame "{'id':'cb-1','success':false,'result':'denied'}")
                        (@PostMessageAddInClient.getChatRoomAsync example_code
                           example_client).1).1)
     = [Rejected (Thrown (VStr "denied"))].
Proof. repeat split; vm_compute; reflexivity. Qed.

(** A direct client that finds no api object applies the failure
    continuation with no argument and stays uninitialised. *)
Example direct_transport_unavailable :
  calls (realm (@DirectAddInClient.getChatRoom example_code (VFun (UserFn 3))
                  (VFun (UserFn 4)) (VRef 7) example_direct).1)
  = [ {| inv_fn := UserFn 4; inv_this := VRef 7; inv_args := [] |} ]
  /\ DirectAddInClient.initialized
       (self (@DirectAddInClient.getChatRoom example_code (VFun (UserFn 3))
                (VFun (UserFn 4)) (VRef 7) example_direct).1) = false.
Proof. repeat split. Qed.

(** A post-message client constructed on a complete document registers
    with the parent at once. *)
Example constructor_registers :
  posted (PostMessageAddInClient.constructor cross_origin_realm).1
  = [ {| data := json_text "{'method':'Register'}"; targetOrigin := "*" |} ].
Proof. vm_compute. reflexivity. Qed.

(** * Further properties of the code *)

(** ** The dispatcher: registration and removal *)

Section DispatcherLaws.
Context `{UserCode}.
Import MulticastDispatcher.

Lemma addHandler_eq (d : t) (eventName : string) (f : FnRef) (sc : JsVal) :
  addHandler d eventName (VFun f) sc
  = match getHandlers d eventName with
    | Some (Inherited _) => (d, Abrupt TypeError)
    | _ =>
        ({| handlers :=
              <[eventName := registered d eventName ++ [{| handler := f; scope := sc |}]]>
                (handlers d) |},
         Normal ())
    end.
Proof.
  unfold addHandler, getOrCreateHandlers, registered.
  destruct (getHandlers d eventName) as [[l|len]|]; simpl; try done.
  by rewrite insert_insert_eq.
Qed.

Lemma getHandlers_stored (d : t) (eventName : string) :
  own_name eventName = true \/ is_Some (handlers d !! eventName) ->
  forall len, getHandlers d eventName <> Some (Inherited len).
Proof.
  intros Hst len. unfold getHandlers, own_name in *.
  destruct (handlers d !! eventName) as [l|]; [done|].
  destruct (inherited_member prototype_members eventName); simpl.
  - destruct Hst as [Hst|[l Hst]]; done.
  - done.
Qed.

Lemma getHandlers_inherited (d : t) (eventName : string) :
  handlers d !! eventName = None ->
  own_name eventName = false ->
  exists len, getHandlers d eventName = Some (Inherited len).
Proof.
  intros Hl Hown. unfold getHandlers, own_name in *. rewrite Hl.
  destruct (inherited_member prototype_members eventName) as [len|]; [|done].
  by exists len.
Qed.

Lemma registered_addHandler (d : t) (eventName : string) (f : FnRef) (sc : JsVal) :
  registered (addHandler d eventName (VFun f) sc).1 eventName
  = match getHandlers d eventName with
    | Some (Inherited _) => []
    | _ => registered d eventName ++ [{| handler := f; scope := sc |}]
    end.
Proof.
  rewrite addHandler_eq.
  destruct (getHandlers d eventName) as [[l|len]|] eqn:Hl; simpl.
  - rewrite registered_lookup. simpl. by rewrite lookup_insert_eq.
  - unfold registered. by rewrite Hl.
  - rewrite registered_lookup. simpl. by rewrite lookup_insert_eq.
Qed.

Lemma getHandlers_addHandler_other (d : t) (eventName other : string) (h sc : JsVal) :
  other <> eventName ->
  getHandlers (addHandler d eventName h sc).1 other = getHandlers d other.
Proof.
  intros Hne. destruct h; try done. rewrite addHandler_eq.
  destruct (getHandlers d eventName) as [[l|len]|]; simpl; try done;
    unfold getHandlers; simpl; by rewrite lookup_insert_ne.
Qed.

(** X1.  [addHandler] with a function, under a name that has a list or is
    none of those every object inherits a member under, appends one entry,
    with the given scope, at the end of the list of the event, creating the
    list when the event has none.  Under the name of an inherited member
    that has no list it throws a [TypeError] and no list is stored.  With
    anything but a function it changes nothing.  In every case the lists of
    all other events stay as they are. *)
Theorem addHandler_appends (d : t) (eventName : string) (h sc : JsVal) :
  (forall f, h = VFun f ->
     own_name eventName = true \/ is_Some (handlers d !! eventName) ->
     (addHandler d eventName h sc).2 = Normal ()
     /\ getHandlers (addHandler d eventName h sc).1 eventName
        = Some (EventHandlers
                  (registered d eventName ++ [{| handler := f; scope := sc |}])))
  /\ (forall f, h = VFun f ->
        handlers d !! eventName = None ->
        own_name eventName = false ->
        addHandler d eventName h sc = (d, Abrupt TypeError))
  /\ ((forall f, h <> VFun f) -> addHandler d eventName h sc = (d, Normal ()))
  /\ (forall other, other <> eventName ->
        getHandlers (addHandler d eventName h sc).1 other = getHandlers d other).
Proof.
  split; [|split; [|split]].
  - intros f -> Hst. pose proof (getHandlers_stored d eventName Hst) as Hni.
    rewrite addHandler_eq.
    destruct (getHandlers d eventName) as [[l|len]|] eqn:Hl; simpl.
    + split; [done|]. apply getHandlers_EventHandlers. simpl.
      by rewrite lookup_insert_eq.
    + by destruct (Hni len).
    + split; [done|]. apply getHandlers_EventHandlers. simpl.
      by rewrite lookup_insert_eq.
  - intros f -> Hl Hown.
    destruct (getHandlers_inherited d eventName Hl Hown) as [len Hlen].
    rewrite addHandler_eq. by rewrite Hlen.
  - intros Hnf. destruct h; try done. by destruct (Hnf f).
  - intros other Hne. by apply getHandlers_addHandler_other.
Qed.

Lemma filter_keeps_idemp (h sc : JsVal) (l : list IHandlerConfig) :
  List.filter (keeps h sc) (List.filter (keeps h sc) l) = List.filter (keeps h sc) l.
Proof.
  induction l as [|e l IH]; simpl; [done|].
  destruct (keeps h sc e) eqn:He; simpl; [|done]. by rewrite He, IH.
Qed.

Lemma removeHandler_eq (d : t) (eventName : string) (h sc : JsVal) :
  removeHandler d eventName h sc
  = match getHandlers d eventName with
    | None => (d, Normal ())
    | Some (EventHandlers l) =>
        ({| handlers := <[eventName := List.filter (keeps h sc) l]> (handlers d) |},
         Normal ())
    | Some (Inherited len) =>
        (d, if loop_enters len then Abrupt TypeError else Normal ())
    end.
Proof.
  unfold removeHandler. destruct (getHandlers d eventName) as [[l|len]|]; try done.
  by rewrite removeHandler_loop_filter by lia.
Qed.

Lemma registered_removeHandler (d : t) (eventName : string) (h sc : JsVal) :
  registered (removeHandler d eventName h sc).1 eventName
  = List.filter (keeps h sc) (registered d eventName).
Proof.
  rewrite removeHandler_eq. unfold registered at 2.
  destruct (getHandlers d eventName) as [[l|len]|] eqn:Hl; simpl.
  - rewrite registered_lookup. simpl. by rewrite lookup_insert_eq.
  - unfold registered. by rewrite Hl.
  - unfold registered. by rewrite Hl.
Qed.

(** X2.  Removing the same handler and scope a second time changes nothing:
    the first removal has taken every matching entry. *)
Theorem removeHandler_idempotent (d : t) (eventName : string) (h sc : JsVal) :
  removeHandler (removeHandler d eventName h sc).1 eventName h sc
  = removeHandler d eventName h sc.
Proof.
  rewrite (removeHandler_eq (removeHandler d eventName h sc).1).
  rewrite (removeHandler_eq d).
  destruct (getHandlers d eventName) as [[l|len]|] eqn:Hl; simpl.
  - unfold getHandlers. simpl. rewrite lookup_insert_eq.
    rewrite filter_keeps_idemp. by rewrite insert_insert_eq.
  - by rewrite Hl.
  - by rewrite Hl.
Qed.

(** X3.  Registering a function under a scope that is identical to itself
    (a primitive, a function or an object with an identity) and removing it
    again leaves the entries of the event that did not match, in their
    order: the removal takes the new entry and every earlier registration of
    the same function and scope.  When there was no such earlier
    registration the event has the entries it had before. *)
Theorem addHandler_then_removeHandler (d : t) (eventName : string) (f : FnRef)
    (sc : JsVal) :
  strict_equals sc sc = true ->
  registered
    (removeHandler (addHandler d eventName (VFun f) sc).1 eventName (VFun f) sc).1
    eventName
  = List.filter (keeps (VFun f) sc) (registered d eventName)
  /\ ((forall e, e ∈ registered d eventName -> matches (VFun f) sc e = false) ->
      registered
        (removeHandler (addHandler d eventName (VFun f) sc).1 eventName (VFun f) sc).1
        eventName
      = registered d eventName).
Proof.
  intros Hrefl.
  assert (Heq : registered
            (removeHandler (addHandler d eventName (VFun f) sc).1 eventName
               (VFun f) sc).1
            eventName
          = List.filter (keeps (VFun f) sc) (registered d eventName)).
  { rewrite registered_removeHandler, registered_addHandler.
    assert (Hlast : List.filter (keeps (VFun f) sc)
                      (registered d eventName ++ [{| handler := f; scope := sc |}])
                    = List.filter (keeps (VFun f) sc) (registered d eventName)).
    { rewrite List.filter_app. simpl. unfold keeps at 2, matches. simpl.
      rewrite bool_decide_eq_true_2 by done. rewrite Hrefl. simpl.
      by rewrite app_nil_r. }
    destruct (getHandlers d eventName) as [[l|len]|] eqn:Hl; try exact Hlast.
    unfold registered. by rewrite Hl. }
  split; [exact Heq|].
  intros Hnone. rewrite Heq. by apply filter_keeps_all.
Qed.

(** X4.  After [removeHandler], a dispatch of the event applies only entries
    that were registered before and do not match the removed handler and
    scope: a removed handler is not called again. *)
Theorem removed_handler_is_not_called (d : t) (eventName : string) (h sc : JsVal)
    (args : JsVal) (r : Realm) :
  let d' := (removeHandler d eventName h sc).1 in
  exists applied,
    calls (callHandlers d' eventName args r).1
    = calls r ++ map (invocation_of (dispatch_arguments args)) applied
    /\ (forall e, e ∈ applied ->
          e ∈ registered d eventName /\ matches h sc e = false).
Proof.
  intros d'.
  destruct (callHandlers_prefix d' eventName args r) as (k & Hc & _).
  exists (take k (registered d' eventName)). split; [exact Hc|].
  intros e He. apply elem_of_take in He. destruct He as (i & He & _).
  apply list_elem_of_lookup_2 in He. subst d'.
  rewrite registered_removeHandler in He.
  apply list_elem_of_In, List.filter_In in He. destruct He as [Hin Hk].
  split; [by apply list_elem_of_In|].
  unfold keeps in Hk. by apply negb_true_iff in Hk.
Qed.

(** X5.  [callHandlers] with a truthy argument value that is not an array
    (and has no [slice] function of its own).  When the read of the table
    under the name finds nothing (no list is stored and the name is none of
    those every object inherits), or finds an empty list, nothing happens
    and the result is empty.  When it finds a list with an entry, the call
    throws a [TypeError] before any handler is applied.  When it finds an
    inherited member, nothing is applied either, and the call throws a
    [TypeError] if the [length] of the member is positive and returns the
    empty sequence otherwise. *)
Theorem callHandlers_rejects_non_array_arguments (d : t) (eventName : string)
    (args : JsVal) (r : Realm) :
  truthy args = true ->
  (forall xs, args <> VArr xs) ->
  (forall f, js_get args "slice" <> VFun f) ->
  (getHandlers d eventName = None
   <-> handlers d !! eventName = None /\ own_name eventName = true)
  /\ (getHandlers d eventName = None \/ handlers d !! eventName = Some [] ->
      callHandlers d eventName args r = (r, Normal []))
  /\ (forall l, handlers d !! eventName = Some l -> l <> [] ->
        callHandlers d eventName args r = (r, Abrupt TypeError))
  /\ (forall len, getHandlers d eventName = Some (Inherited len) ->
        callHandlers d eventName args r
        = (r, if loop_enters len then Abrupt TypeError else Normal [])).
Proof.
  intros Ht Hna _.
  assert (Hs : slice (js_or args (VArr [])) = Abrupt TypeError).
  { unfold js_or. rewrite Ht. destruct args; try done. by destruct (Hna items). }
  split; [apply getHandlers_None|]. split; [|split].
  - intros [Hnone|Hempty]; unfold callHandlers.
    + by rewrite Hnone.
    + apply getHandlers_EventHandlers in Hempty. by rewrite Hempty.
  - intros l Hl Hne. apply getHandlers_EventHandlers in Hl.
    unfold callHandlers. rewrite Hl. destruct l as [|e l]; [done|].
    simpl. eff. by rewrite Hs.
  - intros len Hl. unfold callHandlers. rewrite Hl. by destruct (loop_enters len).
Qed.


End DispatcherLaws.

Lemma addHandler_then_removeHandler_witness :
  registered
    (MulticastDispatcher.removeHandler
       (MulticastDispatcher.addHandler example_duplicates "closing"
          (VFun (UserFn 0)) (VRef 1)).1
       "closing" (VFun (UserFn 0)) (VRef 1)).1
    "closing"
  = [ {| MulticastDispatcher.handler := UserFn 1; MulticastDispatcher.scope := VRef 1 |};
      {| MulticastDispatcher.handler := UserFn 0; MulticastDispatcher.scope := VRef 2 |} ].
Proof.
  destruct (addHandler_then_removeHandler example_duplicates "closing" (UserFn 0)
              (VRef 1) eq_refl) as [Hkept _].
  rewrite Hkept. vm_compute. reflexivity.
Defined.

Lemma callHandlers_rejects_non_array_arguments_witness :
  @MulticastDispatcher.callHandlers example_code example_dispatcher
    "beforemessagesend" (VStr "hi") cross_origin_realm
  = (cross_origin_realm, Abrupt TypeError).
Proof.
  destruct (@callHandlers_rejects_non_array_arguments example_code
              example_dispatcher "beforemessagesend" (VStr "hi") cross_origin_realm
              eq_refl) as (_ & _ & Hthrows & _).
  - intros xs Heq. discriminate Heq.
  - intros f Heq. vm_compute in Heq. discriminate Heq.
  - eapply Hthrows; [vm_compute; reflexivity|]. intros Heq. discriminate Heq.
Defined.

(** ** util.ts *)

(** X6.  [any] returns [true] exactly when the predicate holds of some
    element of the array. *)
Theorem any_holds_iff {A} (array : list A) (predicate : A -> bool) :
  any array predicate = true <-> exists x, x ∈ array /\ predicate x = true.
Proof.
  induction array as [|a array IH]; simpl.
  - split; [done|]. intros (x & Hx & _). inversion Hx.
  - destruct (predicate a) eqn:Ha.
    + split; [|done]. intros _. exists a. split; [apply list_elem_of_here|done].
    + rewrite IH. split.
      * intros (x & Hx & Hp). exists x. split; [by apply list_elem_of_further|done].
      * intros (x & Hx & Hp). apply elem_of_cons in Hx. destruct Hx as [->|Hx].
        -- congruence.
        -- eauto.
Qed.







Section MergeLaws.
Context `{UserCode}.


End MergeLaws.

(** ** The post-message client: the table of pending calls *)

Section PendingCalls.
Context `{UserCode}.
Import PostMessageAddInClient.

Lemma ids_below_initial : ids_below initial.
Proof.
  split; [unfold counter_limit; simpl; lia|].
  intros key cb Hl. simpl in Hl. by rewrite lookup_empty in Hl.
Qed.

Lemma increment_below (n : N) : (n < counter_limit)%N -> increment n = N.succ n.
Proof.
  unfold increment, counter_limit. intros Hlt.
  destruct (N.ltb_spec n (2 ^ 53)); [done|lia].
Qed.

Lemma next_key_fresh (c : t) :
  ids_below c -> (nextCallbackId c < counter_limit)%N ->
  callbacks c !! next_key c = None.
Proof.
  intros [_ Hinv] Hlt. destruct (callbacks c !! next_key c) as [cb|] eqn:Hl; [|done].
  destruct (Hinv _ _ Hl) as (k & Hk & Hkey).
  unfold next_key, callbackPrefix in Hkey. simpl in Hkey.
  injection Hkey as Hkey. apply pretty_N_inj in Hkey. lia.
Qed.

Lemma next_key_truthy (c : t) : truthy (VStr (next_key c)) = true.
Proof. reflexivity. Qed.

Lemma ids_below_insert_next (c : t) (cb : ICallbackConfig) :
  ids_below c ->
  ids_below {| eventDispatcher := eventDispatcher c;
               nextCallbackId := increment (nextCallbackId c);
               callbacks := <[next_key c := cb]> (callbacks c) |}.
Proof.
  intros [Hle Hinv]. unfold ids_below. cbn [nextCallbackId callbacks].
  unfold increment. change (2 ^ 53)%N with counter_limit.
  destruct (N.ltb_spec (nextCallbackId c) counter_limit) as [Hlt|Hge].
  - split; [lia|]. intros key cb' Hl.
    destruct (decide (key = next_key c)) as [->|Hne].
    + exists (nextCallbackId c). split; [left; lia|done].
    + rewrite lookup_insert_ne in Hl by done.
      destruct (Hinv _ _ Hl) as (k & Hk & ->). exists k. split; [left; lia|done].
  - split; [done|]. intros key cb' Hl.
    destruct (decide (key = next_key c)) as [->|Hne].
    + exists (nextCallbackId c). split; [right; lia|done].
    + rewrite lookup_insert_ne in Hl by done.
      destruct (Hinv _ _ Hl) as (k & Hk & ->). exists k. split; [lia|done].
Qed.

Lemma ids_below_weaken (c c' : t) :
  (forall key cb, callbacks c' !! key = Some cb -> callbacks c !! key = Some cb) ->
  nextCallbackId c' = nextCallbackId c ->
  ids_below c -> ids_below c'.
Proof.
  intros Hsub Hnext [Hle Hinv]. unfold ids_below. rewrite Hnext.
  split; [done|]. eauto.
Qed.

Lemma request_ids_below (method : string) (succ fail sc args : JsVal) (w : World t) :
  ids_below (self w) ->
  ids_below (self (sendApiRequest method succ fail sc args w).1).
Proof.
  intros Hinv. rewrite sendApiRequest_self. by apply ids_below_insert_next.
Qed.

Lemma request_done_self (m : Eff (World t) ()) (w : World t) :
  self (returning_undefined m w).1 = self (m w).1.
Proof. unfold returning_undefined. eff. by destruct (m w) as [w' [[]|e]]. Qed.

Lemma new_Promise_self (executor : JsVal -> JsVal -> Eff (World t) ()) (w : World t) :
  self (new_Promise executor w).1
  = self (executor (VFun (ResolveFn (length (promises (realm w)))))
            (VFun (RejectFn (length (promises (realm w)))))
            {| self := self w;
               realm := set_promises (fun ps => ps ++ [Pending]) (realm w) |}).1.
Proof.
  unfold new_Promise.
  by destruct (executor _ _ _) as [w2 [[]|e]].
Qed.

Lemma on_dispatcher_self
    (step : MulticastDispatcher.t -> MulticastDispatcher.t * Completion ())
    (w : World t) :
  self (on_dispatcher step w).1
  = set_eventDispatcher (fun _ => (step (eventDispatcher (self w))).1) (self w).
Proof. unfold on_dispatcher. by destruct (step (eventDispatcher (self w))). Qed.

Lemma apply_value_self (v sc : JsVal) (args : list JsVal) (w : World t) :
  self ((in_realm (js_apply_value v sc args);; mret ()) w).1 = self w.
Proof.
  destruct v; eff; try done. unfold js_apply.
  destruct (fn_result f sc args); done.
Qed.

Lemma invokeResponseCallback_self (message : JsVal) (w : World t) :
  self (invokeResponseCallback message w).1 = self w
  \/ exists id cb,
       pending_call (self w) id = Normal (Some cb)
       /\ self (invokeResponseCallback message w).1
          = set_callbacks (delete (to_string id)) (self w).
Proof.
  destruct (get_prop message "id") as [id|e] eqn:Hid.
  - destruct (pending_call (self w) id) as [[cb|]|e] eqn:Hcb.
    + right. exists id, cb. split; [done|].
      rewrite (invoke_pending_cases w message id cb Hid Hcb). simpl.
      destruct (truthy (js_get message "success") && truthy (success cb)).
      * by rewrite apply_value_self.
      * destruct (negb (truthy (js_get message "success")) && truthy (failure cb)).
        -- by rewrite apply_value_self.
        -- done.
    + left. by rewrite (no_pending_call_no_effect w message id Hid Hcb).
    + left. by rewrite (pending_call_throws w message id e Hid Hcb).
  - left. unfold invokeResponseCallback. eff. by rewrite Hid.
Qed.

Lemma onMessageReceived_self (event : MessageEvent) (w : World t) :
  self (onMessageReceived event w).1 = self w
  \/ exists id cb,
       pending_call (self w) id = Normal (Some cb)
       /\ self (onMessageReceived event w).1
          = set_callbacks (delete (to_string id)) (self w).
Proof.
  unfold onMessageReceived. eff.
  destruct (JSON_parse_value (message_data event)) as [message|]; simpl; [|by left].
  destruct (truthy message) eqn:Hm; [|by left].
  unfold isApiEvent, isApiResponse. eff.
  rewrite !get_prop_truthy by done.
  destruct (truthy (js_get message "event")).
  - left. apply dispatchApiEvent_self.
  - destruct (truthy (js_get message "id")); [|by left].
    apply invokeResponseCallback_self.
Qed.

Lemma onMessageReceived_response (event : MessageEvent) (message : JsVal)
    (w : World t) :
  JSON_parse_value (message_data event) = Normal message ->
  truthy (js_get message "event") = false ->
  truthy (js_get message "id") = true ->
  onMessageReceived event w = invokeResponseCallback message w.
Proof.
  intros Hparse Hev Hid.
  assert (Hm : truthy message = true) by (by destruct message).
  unfold onMessageReceived. rewrite Hparse. eff. rewrite Hm.
  unfold isApiEvent, isApiResponse. eff.
  rewrite !get_prop_truthy by done. by rewrite Hev, Hid.
Qed.

Lemma settle_last (ps : list PromiseState) (s : PromiseState) :
  settle (length ps) s (ps ++ [Pending]) = ps ++ [s].
Proof.
  unfold settle. rewrite lookup_app_r by lia. rewrite Nat.sub_diag. simpl.
  rewrite insert_app_r_alt by lia. by rewrite Nat.sub_diag.
Qed.

(** X8.  The counter never exceeds [2 ^ 53], where [++] leaves it as it is,
    and every pending call has an id made from a number below the counter
    (or from [2 ^ 53] itself once the counter is there): this holds of a new
    client, and every operation of the facade and every inbound frame keeps
    it, whatever they do otherwise.  While the counter is below [2 ^ 53]
    the id of the next request is therefore not in use. *)
Theorem pending_ids_stay_below_counter :
  ids_below initial
  /\ (forall (w : World t),
        ids_below (self w) ->
        (forall op args, ids_below (self (call_member (member op) args w).1))
        /\ (forall event, ids_below (self (onMessageReceived event w).1))
        /\ ((nextCallbackId (self w) < counter_limit)%N ->
            callbacks (self w) !! next_key (self w) = None)).
Proof.
  split; [exact ids_below_initial|].
  intros w Hinv. split; [|split].
  - intros op args.
    destruct op; unfold call_member, member;
      try rewrite request_done_self;
      unfold getChatRoomAsync, getLocalUserDetailsAsync, getDomainDetailsAsync,
        getMaxMessageLengthAsync, sendMessageAsync;
      try rewrite new_Promise_self;
      unfold getChatRoom, getLocalUserDetails, getDomainDetails,
        getMaxMessageLength, sendMessage;
      try (apply request_ids_below; exact Hinv);
      unfold addMessageReceivedHandler, addBeforeMessageSendHandler,
        addClosingHandler;
      rewrite on_dispatcher_self;
      (eapply ids_below_weaken; [| |exact Hinv]; [intros key cb Hl; exact Hl|done]).
  - intros event.
    destruct (onMessageReceived_self event w) as [->|(id & cb & Hcb & ->)]; [done|].
    eapply ids_below_weaken; [| |exact Hinv]; [|done].
    intros key cb' Hl. simpl in Hl.
    apply lookup_delete_Some in Hl. by destruct Hl.
  - by apply next_key_fresh.
Qed.

(** X9.  While the counter is below [2 ^ 53], a request is registered under
    an id no pending call uses, so it replaces none: the pending calls of
    before are all still there, and the counter advances by one.  When the
    arguments are data with no [hasOwnProperty] of their own, the request
    applies no function; on a page with a parent it posts exactly one
    frame, to the origin ["*"], made of the id, the method and the
    arguments merged over them, and returns; on a page without a parent it
    posts nothing and throws a [TypeError], the call staying registered. *)
Theorem sendApiRequest_registers_under_a_fresh_id (w : World t) (method : string)
    (succ fail sc args : JsVal) :
  ids_below (self w) ->
  (nextCallbackId (self w) < counter_limit)%N ->
  plain_data args = true ->
  inherits_hasOwnProperty args = true ->
  let key := next_key (self w) in
  let w1 := (sendApiRequest method succ fail sc args w).1 in
  callbacks (self w) !! key = None
  /\ callbacks (self w1)
     = <[key := {| success := succ; failure := fail; scope := sc |}]>
         (callbacks (self w))
  /\ (forall other cb, callbacks (self w) !! other = Some cb ->
        callbacks (self w1) !! other = Some cb)
  /\ nextCallbackId (self w1) = N.succ (nextCallbackId (self w))
  /\ eventDispatcher (self w1) = eventDispatcher (self w)
  /\ calls (realm w1) = calls (realm w)
  /\ (sendApiRequest method succ fail sc args w).2
     = (if has_parent (realm w) then Normal () else Abrupt TypeError)
  /\ posted (realm w1)
     = posted (realm w)
       ++ (if has_parent (realm w)
           then [{| data := JSON_stringify_object
                              (merged [("id", VStr key); ("method", VStr method)] args);
                    targetOrigin := "*" |}]
           else []).
Proof.
  intros Hinv Hlt _ Hinh key w1. subst w1.
  rewrite (sendApiRequest_run method succ fail sc args w Hinh).
  pose proof (next_key_fresh (self w) Hinv Hlt) as Hfresh.
  pose proof (increment_below _ Hlt) as Hinc.
  destruct (has_parent (realm w)); simpl; rewrite ?app_nil_r;
    (repeat split; try done);
    intros other cb Hl; (rewrite lookup_insert_ne; [done|]);
    intros Heq; rewrite <- Heq in Hl; unfold key in Hl; rewrite Hfresh in Hl;
    discriminate.
Qed.


Lemma awaitable_request_settles (w : World t) (method : string) (a : JsVal)
    (event : MessageEvent) (message : JsVal) :
  ids_below (self w) ->
  (nextCallbackId (self w) < counter_limit)%N ->
  has_parent (realm w) = true ->
  inherits_hasOwnProperty a = true ->
  JSON_parse_value (message_data event) = Normal message ->
  truthy (js_get message "event") = false ->
  js_get message "id" = VStr (next_key (self w)) ->
  let p := length (promises (realm w)) in
  let started := new_Promise (fun resolve reject =>
                    sendApiRequest method resolve reject VUndefined a) w in
  let w2 := (onMessageReceived event started.1).1 in
  let response := js_or (js_get message "result") (VStr "") in
  started.2 = Normal (VPromise p)
  /\ promises (realm started.1) = promises (realm w) ++ [Pending]
  /\ promises (realm w2)
     = promises (realm w)
       ++ [if truthy (js_get message "success") then Fulfilled response
           else Rejected (Thrown response)]
  /\ callbacks (self w2) = callbacks (self w)
  /\ calls (realm w2)
     = calls (realm w)
       ++ [{| inv_fn := if truthy (js_get message "success")
                        then ResolveFn p else RejectFn p;
              inv_this := VUndefined; inv_args := [response] |}].
Proof.
  intros Hinv Hlt Hpar Hinh Hparse Hev Hid p started w2 response.
  pose proof (next_key_fresh (self w) Hinv Hlt) as Hfresh.
  assert (Hidt : truthy (js_get message "id") = true) by (by rewrite Hid).
  assert (Hm : truthy message = true) by (by destruct message).
  assert (Hget : get_prop message "id" = Normal (VStr (next_key (self w)))).
  { rewrite get_prop_truthy by done. by rewrite Hid. }
  assert (Hstarted :
            started
            = ({| self := {| eventDispatcher := eventDispatcher (self w);
                             nextCallbackId := increment (nextCallbackId (self w));
                             callbacks := <[next_key (self w) :=
                                {| success := VFun (ResolveFn p);
                                   failure := VFun (RejectFn p);
                                   scope := VUndefined |}]> (callbacks (self w)) |};
                  realm := log_post
                             {| data := JSON_stringify_object
                                          (merged [("id", VStr (next_key (self w)));
                                                   ("method", VStr method)] a);
                                targetOrigin := "*" |}
                             (set_promises (fun ps => ps ++ [Pending]) (realm w)) |},
               Normal (VPromise p))).
  { subst started. unfold new_Promise.
    rewrite (sendApiRequest_run method _ _ _ a _ Hinh). simpl.
    unfold has_parent in *. simpl. by rewrite Hpar. }
  assert (Hcb : pending_call (self started.1) (VStr (next_key (self w)))
                = Normal (Some {| success := VFun (ResolveFn p);
                                  failure := VFun (RejectFn p);
                                  scope := VUndefined |})).
  { rewrite Hstarted. unfold pending_call. rewrite next_key_truthy. simpl.
    by rewrite lookup_insert_eq. }
  subst w2.
  rewrite (onMessageReceived_response event message started.1 Hparse Hev Hidt).
  rewrite (invoke_pending_cases started.1 message _ _ Hget Hcb).
  rewrite Hstarted. simpl. fold response.
  split; [reflexivity|]. split; [reflexivity|].
  destruct (truthy (js_get message "success")); simpl; eff.
  - split; [apply settle_last|]. split; [|done].
    apply (delete_insert_id (callbacks (self w)) (next_key (self w))), Hfresh.
  - split; [apply settle_last|]. split; [|done].
    apply (delete_insert_id (callbacks (self w)) (next_key (self w))), Hfresh.
Qed.

(** X11.  On a page with a parent, while the counter is below [2 ^ 53],
    each of the five awaitable operations returns a new promise, still
    pending; the frame of the response settles that promise, fulfilled with
    the result when [success] is truthy and rejected with it otherwise (the
    result defaulting to the empty string), and leaves the table of pending
    calls as it was before the operation.  Only the settling function of the
    promise is applied. *)
Theorem awaitable_call_settles_with_the_response (w : World t) (op : FacadeOp)
    (args : list JsVal) (event : MessageEvent) (message : JsVal) :
  ids_below (self w) ->
  (nextCallbackId (self w) < counter_limit)%N ->
  has_parent (realm w) = true ->
  op ∈ awaitable_ops ->
  JSON_parse_value (message_data event) = Normal message ->
  truthy (js_get message "event") = false ->
  js_get message "id" = VStr (next_key (self w)) ->
  let p := length (promises (realm w)) in
  let started := call_member (member op) args w in
  let w2 := (onMessageReceived event started.1).1 in
  let response := js_or (js_get message "result") (VStr "") in
  started.2 = Normal (VPromise p)
  /\ promises (realm started.1) = promises (realm w) ++ [Pending]
  /\ promises (realm w2)
     = promises (realm w)
       ++ [if truthy (js_get message "success") then Fulfilled response
           else Rejected (Thrown response)]
  /\ callbacks (self w2) = callbacks (self w)
  /\ calls (realm w2)
     = calls (realm w)
       ++ [{| inv_fn := if truthy (js_get message "success")
                        then ResolveFn p else RejectFn p;
              inv_this := VUndefined; inv_args := [response] |}].
Proof.
  intros Hinv Hlt Hpar Hop Hparse Hev Hid.
  unfold awaitable_ops in Hop.
  repeat (apply elem_of_cons in Hop; destruct Hop as [->|Hop]);
    try (by apply elem_of_nil in Hop);
    unfold call_member, member, getChatRoomAsync, getLocalUserDetailsAsync,
      getDomainDetailsAsync, getMaxMessageLengthAsync, sendMessageAsync,
      getChatRoom, getLocalUserDetails, getDomainDetails, getMaxMessageLength,
      sendMessage;
    by eapply awaitable_request_settles.
Qed.

(** X12.  A frame that is no event and whose id names no pending call (a
    response that comes a second time, or for an unknown id, or with a falsy
    id) changes nothing, applies nothing and does not throw. *)
Theorem stale_response_is_ignored (w : World t) (event : MessageEvent)
    (message : JsVal) :
  JSON_parse_value (message_data event) = Normal message ->
  truthy (js_get message "event") = false ->
  pending_call (self w) (js_get message "id") = Normal None ->
  onMessageReceived event w = (w, Normal ()).
Proof.
  intros Hparse Hev Hnone.
  destruct (truthy message) eqn:Hm.
  - destruct (truthy (js_get message "id")) eqn:Hid.
    + rewrite (onMessageReceived_response event message w Hparse Hev Hid).
      apply (no_pending_call_no_effect w message (js_get message "id")); [|done].
      by apply get_prop_truthy.
    + unfold onMessageReceived. rewrite Hparse. eff. rewrite Hm.
      unfold isApiEvent, isApiResponse. eff.
      rewrite !get_prop_truthy by done. by rewrite Hev, Hid.
  - unfold onMessageReceived. rewrite Hparse. eff. by rewrite Hm.
Qed.

(** X13.  A response for a pending call that lacks the continuation the
    [success] field selects (that continuation is falsy) removes the call
    and applies nothing, the other continuation included, and does not
    throw. *)
Theorem response_without_matching_continuation (w : World t) (message id : JsVal)
    (cb : ICallbackConfig) :
  get_prop message "id" = Normal id ->
  pending_call (self w) id = Normal (Some cb) ->
  let ok := js_get message "success" in
  let w' := without_pending (to_string id) w in
  (truthy ok = true -> truthy (success cb) = false ->
     invokeResponseCallback message w = (w', Normal ()))
  /\ (truthy ok = false -> truthy (failure cb) = false ->
     invokeResponseCallback message w = (w', Normal ())).
Proof.
  intros Hid Hcb ok w'.
  pose proof (invoke_pending_cases w message id cb Hid Hcb) as Hrun.
  simpl in Hrun. fold ok w' in Hrun.
  split.
  - intros Hok Hs. by rewrite Hrun, Hok, Hs.
  - intros Hok Hf. by rewrite Hrun, Hok, Hf.
Qed.



End PendingCalls.

Lemma sendApiRequest_registers_under_a_fresh_id_witness :
  PostMessageAddInClient.callbacks
    (self (@PostMessageAddInClient.sendApiRequest example_code "GetChatRoom"
             (VFun (UserFn 3)) (VFun (UserFn 4)) (VRef 7) VNull example_client).1)
  = {[ "cb-1" := example_callback ]}
  /\ posted (realm (@PostMessageAddInClient.sendApiRequest example_code "GetChatRoom"
                      (VFun (UserFn 3)) (VFun (UserFn 4)) (VRef 7) VNull
                      example_client).1)
     = [ {| data := json_text "{'id':'cb-1','method':'GetChatRoom'}";
            targetOrigin := "*" |} ].
Proof.
  destruct (@sendApiRequest_registers_under_a_fresh_id example_code example_client
              "GetChatRoom" (VFun (UserFn 3)) (VFun (UserFn 4)) (VRef 7) VNull
              ids_below_initial eq_refl eq_refl eq_refl)
    as (_ & Htable & _ & _ & _ & _ & _ & Hposted).
  split.
  - rewrite Htable. reflexivity.
  - rewrite Hposted. vm_compute. reflexivity.
Defined.


Lemma awaitable_call_settles_with_the_response_witness :
  promises (realm (@PostMessageAddInClient.onMessageReceived example_code
                     (frame "{'id':'cb-1','success':true,'result':true}")
                     (call_member
                        (@PostMessageAddInClient.member example_code
                           op_sendMessageAsync)
                        [VStr "hello"; VBool false] example_client).1).1)
  = [Fulfilled (VBool true)].
Proof.
  destruct (@awaitable_call_settles_with_the_response example_code example_client
              op_sendMessageAsync [VStr "hello"; VBool false]
              (frame "{'id':'cb-1','success':true,'result':true}")
              (VObj [("id", VStr "cb-1"); ("success", VBool true);
                     ("result", VBool true)])
              ids_below_initial eq_refl eq_refl)
    as (_ & _ & Hsettled & _).
  - unfold awaitable_ops. do 4 apply list_elem_of_further. apply list_elem_of_here.
  - vm_compute. reflexivity.
  - reflexivity.
  - vm_compute. reflexivity.
  - rewrite Hsettled. reflexivity.
Defined.

Lemma stale_response_is_ignored_witness :
  @PostMessageAddInClient.onMessageReceived example_code
    (frame "{'id':'cb-9','success':true,'result':'X'}") example_pending
  = (example_pending, Normal ()).
Proof.
  apply (@stale_response_is_ignored example_code example_pending
           (frame "{'id':'cb-9','success':true,'result':'X'}")
           (VObj [("id", VStr "cb-9"); ("success", VBool true);
                  ("result", VStr "X")])).
  - vm_compute. reflexivity.
  - reflexivity.
  - vm_compute. reflexivity.
Defined.

Lemma response_without_matching_continuation_witness :
  @PostMessageAddInClient.invokeResponseCallback example_code example_response
    example_no_success
  = (without_pending "cb-1" example_no_success, Normal ()).
Proof.
  destruct (@response_without_matching_continuation example_code example_no_success
              example_response (VStr "cb-1")
              {| PostMessageAddInClient.success := VUndefined;
                 PostMessageAddInClient.failure := VFun (UserFn 4);
                 PostMessageAddInClient.scope := VRef 7 |}
              eq_refl)
    as (Hsilent & _).
  - vm_compute. reflexivity.
  - apply Hsilent; reflexivity.
Defined.


(** ** Registration through the facade *)

Section FacadeRegistration.
Context `{UserCode}.

Lemma addHandler_own_name (d : MulticastDispatcher.t) (name : string) (h sc : JsVal) :
  own_name name = true ->
  (MulticastDispatcher.addHandler d name h sc).2 = Normal ()
  /\ (forall other, other <> name ->
        MulticastDispatcher.getHandlers (MulticastDispatcher.addHandler d name h sc).1
          other
        = MulticastDispatcher.getHandlers d other)
  /\ (forall f, h = VFun f ->
        registered (MulticastDispatcher.addHandler d name h sc).1 name
        = registered d name
          ++ [{| MulticastDispatcher.handler := f; MulticastDispatcher.scope := sc |}])
  /\ ((forall f, h <> VFun f) -> (MulticastDispatcher.addHandler d name h sc).1 = d).
Proof.
  intros Hown.
  pose proof (getHandlers_stored d name (or_introl Hown)) as Hni.
  split; [|split; [|split]].
  - destruct h; try done. rewrite addHandler_eq.
    destruct (MulticastDispatcher.getHandlers d name) as [[l|len]|]; try done.
    by destruct (Hni len).
  - intros other Hne. by apply getHandlers_addHandler_other.
  - intros f ->. rewrite registered_addHandler.
    destruct (MulticastDispatcher.getHandlers d name) as [[l|len]|]; try done.
    by destruct (Hni len).
  - intros Hnf. destruct h; try done. by destruct (Hnf f).
Qed.

Lemma register_on_post_message (name : string) (h sc : JsVal)
    (w : World PostMessageAddInClient.t) :
  own_name name = true ->
  let run := PostMessageAddInClient.returning_undefined
               (PostMessageAddInClient.on_dispatcher
                  (fun d => MulticastDispatcher.addHandler d name h sc)) w in
  run.2 = Normal VUndefined
  /\ realm run.1 = realm w
  /\ self run.1
     = PostMessageAddInClient.set_eventDispatcher
         (fun _ => (MulticastDispatcher.addHandler
                      (PostMessageAddInClient.eventDispatcher (self w)) name h sc).1)
         (self w).
Proof.
  intros Hown run. subst run.
  destruct (addHandler_own_name (PostMessageAddInClient.eventDispatcher (self w))
              name h sc Hown) as [Hn _].
  unfold PostMessageAddInClient.returning_undefined,
    PostMessageAddInClient.on_dispatcher. eff.
  destruct (MulticastDispatcher.addHandler _ name h sc) as [d' c].
  simpl in *. by subst c.
Qed.

Lemma register_on_direct (name : string) (h sc : JsVal)
    (w : World DirectAddInClient.t) :
  own_name name = true ->
  let run := DirectAddInClient.returning_undefined
               (DirectAddInClient.on_dispatcher
                  (fun d => MulticastDispatcher.addHandler d name h sc)) w in
  run.2 = Normal VUndefined
  /\ realm run.1 = realm w
  /\ self run.1
     = DirectAddInClient.set_dispatcher
         (fun _ => (MulticastDispatcher.addHandler
                      (DirectAddInClient.dispatcher (self w)) name h sc).1)
         (self w).
Proof.
  intros Hown run. subst run.
  destruct (addHandler_own_name (DirectAddInClient.dispatcher (self w))
              name h sc Hown) as [Hn _].
  unfold DirectAddInClient.returning_undefined, DirectAddInClient.on_dispatcher. eff.
  destruct (MulticastDispatcher.addHandler _ name h sc) as [d' c].
  simpl in *. by subst c.
Qed.

(** X16.  Each of the three registering operations, on either client, puts
    the handler at the end of the list of its own event and leaves the lists
    of all other events alone; a handler that is no function is dropped
    without an error.  The operation returns [undefined], contacts no host
    (nothing is posted or applied, the page is untouched) and keeps the
    pending calls and the counter of the post-message client and the api
    reference of the direct client. *)
Theorem handler_registration_by_the_facade (op : FacadeOp) (name : string)
    (h sc : JsVal) (rest : list JsVal)
    (wp : World PostMessageAddInClient.t) (wd : World DirectAddInClient.t) :
  (op, name) ∈ handler_events ->
  let entry f := {| MulticastDispatcher.handler := f;
                    MulticastDispatcher.scope := sc |} in
  let runp := call_member (PostMessageAddInClient.member op) (h :: sc :: rest) wp in
  let rund := call_member (DirectAddInClient.member op) (h :: sc :: rest) wd in
  let dp := PostMessageAddInClient.eventDispatcher (self wp) in
  let dp' := PostMessageAddInClient.eventDispatcher (self runp.1) in
  let dd := DirectAddInClient.dispatcher (self wd) in
  let dd' := DirectAddInClient.dispatcher (self rund.1) in
  (runp.2 = Normal VUndefined
   /\ realm runp.1 = realm wp
   /\ PostMessageAddInClient.callbacks (self runp.1)
      = PostMessageAddInClient.callbacks (self wp)
   /\ PostMessageAddInClient.nextCallbackId (self runp.1)
      = PostMessageAddInClient.nextCallbackId (self wp)
   /\ (forall other, other <> name ->
         MulticastDispatcher.getHandlers dp' other
         = MulticastDispatcher.getHandlers dp other)
   /\ (forall f, h = VFun f -> registered dp' name = registered dp name ++ [entry f])
   /\ ((forall f, h <> VFun f) -> self runp.1 = self wp))
  /\ (rund.2 = Normal VUndefined
   /\ realm rund.1 = realm wd
   /\ DirectAddInClient.api (self rund.1) = DirectAddInClient.api (self wd)
   /\ DirectAddInClient.initialized (self rund.1)
      = DirectAddInClient.initialized (self wd)
   /\ (forall other, other <> name ->
         MulticastDispatcher.getHandlers dd' other
         = MulticastDispatcher.getHandlers dd other)
   /\ (forall f, h = VFun f -> registered dd' name = registered dd name ++ [entry f])
   /\ ((forall f, h <> VFun f) -> self rund.1 = self wd)).
Proof.
  intros Hop entry runp rund dp dp' dd dd'.
  assert (Hshape :
            own_name name = true
            /\ runp = PostMessageAddInClient.returning_undefined
                        (PostMessageAddInClient.on_dispatcher
                           (fun d => MulticastDispatcher.addHandler d name h sc)) wp
            /\ rund = DirectAddInClient.returning_undefined
                        (DirectAddInClient.on_dispatcher
                           (fun d => MulticastDispatcher.addHandler d name h sc)) wd).
  { unfold handler_events in Hop.
    repeat (apply elem_of_cons in Hop; destruct Hop as [Heq|Hop];
            [injection Heq as -> ->; repeat split|]).
    by apply elem_of_nil in Hop. }
  destruct Hshape as (Hown & Hrunp & Hrund).
  destruct (register_on_post_message name h sc wp Hown) as (Hp2 & Hpr & Hps).
  destruct (register_on_direct name h sc wd Hown) as (Hd2 & Hdr & Hds).
  rewrite <- Hrunp in Hp2, Hpr, Hps. rewrite <- Hrund in Hd2, Hdr, Hds.
  destruct (addHandler_own_name dp name h sc Hown) as (_ & Hpo & Hpa & Hpn).
  destruct (addHandler_own_name dd name h sc Hown) as (_ & Hdo & Hda & Hdn).
  subst dp' dd'. rewrite Hps, Hds. simpl.
  split.
  - repeat split; try done.
    intros Hnf. fold dp. rewrite (Hpn Hnf). subst dp. by destruct (self wp).
  - repeat split; try done.
    intros Hnf. fold dd. rewrite (Hdn Hnf). subst dd. by destruct (self wd).
Qed.

End FacadeRegistration.

Lemma handler_registration_by_the_facade_witness :
  registered
    (PostMessageAddInClient.eventDispatcher
       (self (call_member
                (@PostMessageAddInClient.member example_code op_addClosingHandler)
                [VFun (UserFn 1); VRef 2] example_listening).1))
    "closing"
  = [ {| MulticastDispatcher.handler := UserFn 1; MulticastDispatcher.scope := VRef 2 |} ]
  /\ registered
       (DirectAddInClient.dispatcher
          (self (call_member
                   (@DirectAddInClient.member example_code op_addClosingHandler)
                   [VFun (UserFn 1); VRef 2] example_direct).1))
       "closing"
     = [ {| MulticastDispatcher.handler := UserFn 1; MulticastDispatcher.scope := VRef 2 |} ].
Proof.
  destruct (@handler_registration_by_the_facade example_code op_addClosingHandler
              "closing" (VFun (UserFn 1)) (VRef 2) [] example_listening
              example_direct)
    as ((_ & _ & _ & _ & _ & Hp & _) & (_ & _ & _ & _ & _ & Hd & _)).
  - unfold handler_events. do 2 apply list_elem_of_further. apply list_elem_of_here.
  - split.
    + rewrite (Hp (UserFn 1) eq_refl). reflexivity.
    + rewrite (Hd (UserFn 1) eq_refl). reflexivity.
Defined.

(** ** The direct client: reaching the host *)

Section DirectCalls.
Context `{UserCode}.
Import DirectAddInClient.

Lemma callApiMethod_eq (methodName : string) (succ fail sc : JsVal)
    (args : option (list JsVal)) (w : World t) :
  callApiMethod methodName succ fail sc args w
  = match api_method (api (self (initialize w).1)) methodName with
    | Some method =>
        (result ← in_realm (method (default [] args));
         if truthy succ then in_realm (js_apply_value succ sc [result]);; mret ()
         else mret ()) (initialize w).1
    | None =>
        (if truthy fail then in_realm (js_apply_value fail sc []);; mret ()
         else mret ()) (initialize w).1
    end.
Proof.
  unfold callApiMethod, initialize. eff.
  destruct (initialized (self w)); simpl;
    match goal with |- context [api_method ?a ?m] => destruct (api_method a m) end;
    reflexivity.
Qed.

Lemma initialize_realm (w : World t) : realm (initialize w).1 = realm w.
Proof. unfold initialize. by destruct (initialized (self w)). Qed.

Lemma apply_value_self_direct (v sc : JsVal) (xs : list JsVal) (w : World t) :
  self ((in_realm (js_apply_value v sc xs);; mret ()) w).1 = self w.
Proof.
  destruct v; eff; try done. by destruct (fn_result f sc xs).
Qed.

Lemma apply_value_posted_direct (v sc : JsVal) (xs : list JsVal) (w : World t) :
  posted (realm ((in_realm (js_apply_value v sc xs);; mret ()) w).1)
  = posted (realm w).
Proof.
  destruct v; eff; try done. by destruct (fn_result f sc xs).
Qed.

Lemma api_method_self (a : ApiRef) (methodName : string)
    (method : list JsVal -> Eff Realm JsVal) (xs : list JsVal) (succ sc : JsVal)
    (w : World t) :
  api_method a methodName = Some method ->
  self ((result ← in_realm (method xs);
         if truthy succ then in_realm (js_apply_value succ sc [result]);; mret ()
         else mret ()) w).1 = self w.
Proof.
  intros Hm. unfold mbind at 1. unfold Eff_bind.
  destruct (in_realm (method xs) w) as [w1 [result|e]] eqn:Hrun.
  - assert (Hs : self w1 = self w).
    { pose proof (in_realm_self (method xs) w) as Hi. by rewrite Hrun in Hi. }
    destruct (truthy succ).
    + by rewrite apply_value_self_direct.
    + done.
  - pose proof (in_realm_self (method xs) w) as Hi. by rewrite Hrun in Hi.
Qed.

Lemma callApiMethod_self (methodName : string) (succ fail sc : JsVal)
    (args : option (list JsVal)) (w : World t) :
  self (callApiMethod methodName succ fail sc args w).1 = self (initialize w).1.
Proof.
  rewrite callApiMethod_eq.
  destruct (api_method (api (self (initialize w).1)) methodName) as [method|] eqn:Hm.
  - by apply (api_method_self _ _ _ _ _ _ _ Hm).
  - destruct (truthy fail); [|done]. by rewrite apply_value_self_direct.
Qed.

Lemma initialize_settles (w : World t) :
  (initialized (self w) = true -> self (initialize w).1 = self w)
  /\ (api_settled (self w) -> api_settled (self (initialize w).1))
  /\ dispatcher (self (initialize w).1) = dispatcher (self w).
Proof.
  unfold initialize, api_settled.
  destruct (initialized (self w)) eqn:Hi; simpl.
  - rewrite Hi. split; [done|]. split; done.
  - split; [done|]. split; [|done]. intros _. reflexivity.
Qed.

Lemma returning_undefined_self (m : Eff (World t) ()) (w : World t) :
  self (returning_undefined m w).1 = self (m w).1.
Proof.
  unfold returning_undefined. eff. by destruct (m w) as [w1 [[]|e]].
Qed.

Lemma direct_on_dispatcher_self
    (step : MulticastDispatcher.t -> MulticastDispatcher.t * Completion ())
    (w : World t) :
  self (on_dispatcher step w).1
  = set_dispatcher (fun _ => (step (dispatcher (self w))).1) (self w).
Proof. unfold on_dispatcher. by destruct (step (dispatcher (self w))). Qed.

Lemma js_apply_value_not_function (v this : JsVal) (xs : list JsVal) (r : Realm) :
  (forall f, v <> VFun f) -> js_apply_value v this xs r = (r, Abrupt TypeError).
Proof.
  intros Hnf. destruct v; try done. exfalso. by eapply Hnf.
Qed.

(** X17.  The direct client is marked initialized exactly when it holds an
    api: this holds of a new client and every operation of the facade keeps
    it.  Once the client is initialized no operation looks at the page
    again: the api reference stays the one it has, whatever [window.addins]
    and [window.external] are by then. *)
Theorem api_reference_is_cached :
  api_settled initial
  /\ (forall (w : World t) (op : FacadeOp) (args : list JsVal),
        let c' := self (call_member (member op) args w).1 in
        (api_settled (self w) -> api_settled c')
        /\ (initialized (self w) = true ->
            initialized c' = true /\ api c' = api (self w))).
Proof.
  split; [reflexivity|].
  intros w op args c'. subst c'.
  destruct (initialize_settles w) as (Hkeep & Hset & _).
  assert (Hreq : forall m s f sc a,
            let c' := self (returning_undefined (callApiMethod m s f sc a) w).1 in
            (api_settled (self w) -> api_settled c')
            /\ (initialized (self w) = true ->
                initialized c' = true /\ api c' = api (self w))).
  { intros m s f sc a c'. subst c'.
    rewrite returning_undefined_self, callApiMethod_self.
    split; [exact Hset|]. intros Hi. by rewrite (Hkeep Hi). }
  destruct op; unfold call_member, member; try apply Hreq;
    try rewrite returning_undefined_self;
    unfold addMessageReceivedHandler, addBeforeMessageSendHandler, addClosingHandler;
    try rewrite direct_on_dispatcher_self;
    unfold api_settled; simpl; (split; [done|]); by intros ->.
Qed.

(** X18.  [initialize] on a client that holds no api yet looks at
    [window.addins] first and takes it when it is truthy; otherwise it wraps
    a truthy [window.external] in an [ActiveXWrapper]; when neither is there
    the client stays uninitialized, so that the next call looks again.  It
    changes neither the page nor the registered handlers. *)
Theorem initialize_probes_in_order (w : World t) :
  initialized (self w) = false ->
  api_truthy (api (self w)) = false ->
  let page := window (realm w) in
  let c' := self (initialize w).1 in
  (truthy (addins page) = true ->
     api c' = ApiValue (addins page) /\ initialized c' = true)
  /\ (truthy (addins page) = false -> truthy (external page) = true ->
     api c' = ActiveXWrapper (external page) /\ initialized c' = true)
  /\ (truthy (addins page) = false -> truthy (external page) = false ->
     initialized c' = false /\ api_truthy (api c') = false)
  /\ realm (initialize w).1 = realm w
  /\ dispatcher c' = dispatcher (self w).
Proof.
  intros Hi Ha page c'. subst c' page. unfold initialize, probe.
  rewrite Hi, Ha. simpl.
  destruct (truthy (addins (window (realm w)))) eqn:Hadd; simpl.
  - rewrite Hadd. repeat split; done.
  - destruct (truthy (external (window (realm w)))) eqn:Hext; simpl.
    + repeat split; done.
    + rewrite Hext. repeat split; done.
Qed.

(** X19.  A call whose method is a function of the api object: the function
    is applied once, with the api object as [this] and the arguments of the
    call (none by default); its result is then handed to the success
    continuation under the scope of the call.  The failure continuation is
    not applied, nothing is posted, and what the success continuation throws
    is thrown by the call. *)
Theorem direct_call_passes_result_to_success (w : World t) (methodName : string)
    (v : JsVal) (f s : FnRef) (fail sc result : JsVal) (args : option (list JsVal)) :
  api (self (initialize w).1) = ApiValue v ->
  truthy v = true ->
  js_get v methodName = VFun f ->
  fn_result f v (default [] args) = Normal result ->
  let run := callApiMethod methodName (VFun s) fail sc args w in
  run.2 = unit_of (fn_result s sc [result])
  /\ self run.1 = self (initialize w).1
  /\ calls (realm run.1)
     = calls (realm w)
       ++ [{| inv_fn := f; inv_this := v; inv_args := default [] args |};
           {| inv_fn := s; inv_this := sc; inv_args := [result] |}]
  /\ posted (realm run.1) = posted (realm w).
Proof.
  intros Hapi Hv Hf Hres run. subst run. rewrite callApiMethod_eq, Hapi.
  unfold api_method, js_and. rewrite Hv, Hf.
  pose proof (initialize_realm w) as Hr.
  eff. rewrite Hres. simpl. rewrite Hr.
  destruct (fn_result s sc [result]); simpl; rewrite <- app_assoc; done.
Qed.

(** X20.  When the function of the host throws, the call throws the same
    exception and applies neither continuation: the failure continuation is
    not a handler of exceptions. *)
Theorem direct_call_host_exception_skips_continuations (w : World t)
    (methodName : string) (v : JsVal) (f : FnRef) (succ fail sc : JsVal)
    (e : Exception) (args : option (list JsVal)) :
  api (self (initialize w).1) = ApiValue v ->
  truthy v = true ->
  js_get v methodName = VFun f ->
  fn_result f v (default [] args) = Abrupt e ->
  let run := callApiMethod methodName succ fail sc args w in
  run.2 = Abrupt e
  /\ self run.1 = self (initialize w).1
  /\ calls (realm run.1)
     = calls (realm w)
       ++ [{| inv_fn := f; inv_this := v; inv_args := default [] args |}]
  /\ posted (realm run.1) = posted (realm w).
Proof.
  intros Hapi Hv Hf Hres run. subst run. rewrite callApiMethod_eq, Hapi.
  unfold api_method, js_and. rewrite Hv, Hf.
  pose proof (initialize_realm w) as Hr.
  eff. rewrite Hres. simpl. by rewrite Hr.
Qed.

(** X21.  A call whose method the api value does not have as a function (no
    api at all, or no such function on it): the success continuation is not
    applied and the host is not reached; a failure continuation that is a
    function is applied once, under the scope of the call and with no
    argument; without a failure continuation the call does nothing. *)
Theorem direct_call_without_method_calls_failure (w : World t)
    (methodName : string) (v succ fail sc : JsVal) (args : option (list JsVal)) :
  api (self (initialize w).1) = ApiValue v ->
  (forall f, js_and v (js_get v methodName) <> VFun f) ->
  let run := callApiMethod methodName succ fail sc args w in
  self run.1 = self (initialize w).1
  /\ posted (realm run.1) = posted (realm w)
  /\ (truthy fail = false -> run.2 = Normal () /\ calls (realm run.1) = calls (realm w))
  /\ (forall g, fail = VFun g ->
        run.2 = unit_of (fn_result g sc [])
        /\ calls (realm run.1)
           = calls (realm w) ++ [{| inv_fn := g; inv_this := sc; inv_args := [] |}]).
Proof.
  intros Hapi Hnf run. subst run. rewrite callApiMethod_eq, Hapi.
  assert (Hnone : api_method (ApiValue v) methodName = None).
  { unfold api_method. destruct (js_and v (js_get v methodName)); try done.
    by destruct (Hnf f). }
  rewrite Hnone.
  pose proof (initialize_realm w) as Hr.
  split; [|split; [|split]].
  - destruct (truthy fail); [|done]. by rewrite apply_value_self_direct.
  - destruct (truthy fail); [rewrite apply_value_posted_direct|simpl];
      by rewrite Hr.
  - intros Hf. rewrite Hf. simpl. by rewrite Hr.
  - intros g ->. eff. rewrite Hr. by destruct (fn_result g sc []).
Qed.

(** X22.  A call through the [ActiveXWrapper]: the wrapper applies the
    member of [window.external], with [window.external] as [this], to both
    parameters of [PostMessage] and to no argument for the four other
    methods, whatever arguments the call has.  When [window.external] has no
    callable member of that name the call throws a [TypeError] and applies
    neither continuation, the failure continuation included. *)
Theorem wrapper_forwards_fixed_arguments (w : World t) (methodName : string)
    (ext succ fail sc : JsVal) (args : option (list JsVal)) :
  api (self (initialize w).1) = ActiveXWrapper ext ->
  methodName ∈ wrapper_methods ->
  let run := callApiMethod methodName succ fail sc args w in
  let passed := if String.eqb methodName "PostMessage"
                then [arg 0 (default [] args); arg 1 (default [] args)]
                else [] in
  ((forall f, js_get ext methodName <> VFun f) ->
     run = ((initialize w).1, Abrupt TypeError))
  /\ (forall f s result,
        js_get ext methodName = VFun f ->
        succ = VFun s ->
        fn_result f ext passed = Normal result ->
        run.2 = unit_of (fn_result s sc [result])
        /\ calls (realm run.1)
           = calls (realm w)
             ++ [{| inv_fn := f; inv_this := ext; inv_args := passed |};
                 {| inv_fn := s; inv_this := sc; inv_args := [result] |}]).
Proof.
  intros Hapi Hin run passed. subst run. rewrite callApiMethod_eq, Hapi.
  unfold api_method. rewrite bool_decide_eq_true_2 by done.
  pose proof (initialize_realm w) as Hr.
  fold (wrapper_args methodName (default [] args)).
  change (wrapper_args methodName (default [] args)) with passed.
  split.
  - intros Hnf. eff.
    rewrite (js_apply_value_not_function _ ext passed _ Hnf). simpl.
    by destruct (initialize w).1.
  - intros f s result Hf -> Hres. rewrite Hf. eff. rewrite Hres. simpl.
    rewrite Hr. destruct (fn_result s sc [result]); simpl; rewrite <- app_assoc; done.
Qed.


(** X24.  On a page that has run the shim, a client without an api never
    builds an [ActiveXWrapper]: where the wrapper would have been built
    around [window.external], the client now holds [window.external] itself
    under the name [window.addins].  The shim does not change which
    transport the selector chooses. *)
Theorem shim_makes_the_wrapper_unreachable (a : ApiRef) (w : Window) :
  api_truthy a = false ->
  (forall ext, probe a (addins_shim w) <> ActiveXWrapper ext)
  /\ selects_direct (addins_shim w) = selects_direct w
  /\ (truthy (addins w) = false -> truthy (external w) = true ->
      probe a w = ActiveXWrapper (external w)
      /\ probe a (addins_shim w) = ApiValue (external w)).
Proof.
  intros Ha. unfold probe, selects_direct, addins_shim, isCrossDomain, js_or, js_and.
  rewrite Ha. simpl.
  destruct (truthy (addins w)) eqn:Hadd; destruct (truthy (external w)) eqn:Hext;
    simpl; rewrite ?Hadd, ?Hext; simpl; rewrite ?Hadd, ?Hext;
    (split; [done|]); (split; [|done]); try done;
    by destruct (truthy (js_get (external w) "GetChatRoom")).
Qed.

End DirectCalls.

Lemma initialize_probes_in_order_witness :
  DirectAddInClient.api (self (DirectAddInClient.initialize example_wrapped).1)
  = DirectAddInClient.ActiveXWrapper example_host
  /\ DirectAddInClient.api (self (DirectAddInClient.initialize example_hosted).1)
     = DirectAddInClient.ApiValue example_host.
Proof.
  split.
  - destruct (initialize_probes_in_order example_wrapped eq_refl eq_refl)
      as (_ & Hexternal & _).
    by destruct (Hexternal eq_refl eq_refl).
  - reflexivity.
Defined.

Lemma direct_call_passes_result_to_success_witness :
  calls (realm (@DirectAddInClient.sendMessage example_code (VStr "hello")
                  (VBool false) (VFun (UserFn 3)) (VFun (UserFn 4)) (VRef 7)
                  example_hosted).1)
  = [ {| inv_fn := UserFn 1; inv_this := example_host;
         inv_args := [VStr "hello"; VBool false] |};
      {| inv_fn := UserFn 3; inv_this := VRef 7; inv_args := [VBool true] |} ].
Proof.
  destruct (@direct_call_passes_result_to_success example_code example_hosted
              "PostMessage" example_host (UserFn 1) (UserFn 3) (VFun (UserFn 4))
              (VRef 7) (VBool true) (Some [VStr "hello"; VBool false])
              eq_refl eq_refl eq_refl eq_refl)
    as (_ & _ & Hcalls & _).
  exact Hcalls.
Defined.

Lemma direct_call_host_exception_skips_continuations_witness :
  (@DirectAddInClient.getDomainDetails example_code (VFun (UserFn 3))
     (VFun (UserFn 4)) (VRef 7) example_hosted).2
  = Abrupt (Thrown (VStr "boom"))
  /\ calls (realm (@DirectAddInClient.getDomainDetails example_code
                     (VFun (UserFn 3)) (VFun (UserFn 4)) (VRef 7)
                     example_hosted).1)
     = [ {| inv_fn := UserFn 2; inv_this := example_host; inv_args := [] |} ].
Proof.
  destruct (@direct_call_host_exception_skips_continuations example_code
              example_hosted "GetDomain" example_host (UserFn 2)
              (VFun (UserFn 3)) (VFun (UserFn 4)) (VRef 7)
              (Thrown (VStr "boom")) None eq_refl eq_refl eq_refl eq_refl)
    as (Hthrows & _ & Hcalls & _).
  split; [exact Hthrows|exact Hcalls].
Defined.

Lemma direct_call_without_method_calls_failure_witness :
  calls (realm (@DirectAddInClient.getMaxMessageLength example_code
                  (VFun (UserFn 3)) (VFun (UserFn 4)) (VRef 7) example_hosted).1)
  = [ {| inv_fn := UserFn 4; inv_this := VRef 7; inv_args := [] |} ].
Proof.
  destruct (@direct_call_without_method_calls_failure example_code example_hosted
              "GetMaxMessageLength" example_host (VFun (UserFn 3))
              (VFun (UserFn 4)) (VRef 7) None eq_refl)
    as (_ & _ & _ & Hfailure).
  - intros f Heq. vm_compute in Heq. discriminate Heq.
  - by destruct (Hfailure (UserFn 4) eq_refl).
Defined.

Lemma wrapper_forwards_fixed_arguments_witness :
  calls (realm (@DirectAddInClient.sendMessage example_code (VStr "hello")
                  (VBool false) (VFun (UserFn 3)) (VFun (UserFn 4)) (VRef 7)
                  example_wrapped).1)
  = [ {| inv_fn := UserFn 1; inv_this := example_host;
         inv_args := [VStr "hello"; VBool false] |};
      {| inv_fn := UserFn 3; inv_this := VRef 7; inv_args := [VBool true] |} ]
  /\ @DirectAddInClient.getMaxMessageLength example_code (VFun (UserFn 3))
       (VFun (UserFn 4)) (VRef 7) example_wrapped
     = ((DirectAddInClient.initialize example_wrapped).1, Abrupt TypeError).
Proof.
  split.
  - destruct (@wrapper_forwards_fixed_arguments example_code example_wrapped
                "PostMessage" example_host (VFun (UserFn 3)) (VFun (UserFn 4))
                (VRef 7) (Some [VStr "hello"; VBool false]) eq_refl)
      as (_ & Hcalled).
    + unfold DirectAddInClient.wrapper_methods.
      do 3 apply list_elem_of_further. apply list_elem_of_here.
    + by destruct (Hcalled (UserFn 1) (UserFn 3) (VBool true) eq_refl eq_refl eq_refl).
  - reflexivity.
Defined.


Lemma shim_makes_the_wrapper_unreachable_witness :
  DirectAddInClient.probe (DirectAddInClient.ApiValue VNull)
    (example_window HrefDenied example_host VUndefined)
  = DirectAddInClient.ActiveXWrapper example_host
  /\ DirectAddInClient.probe (DirectAddInClient.ApiValue VNull)
       (addins_shim (example_window HrefDenied example_host VUndefined))
     = DirectAddInClient.ApiValue example_host.
Proof.
  destruct (shim_makes_the_wrapper_unreachable (DirectAddInClient.ApiValue VNull)
              (example_window HrefDenied example_host VUndefined) eq_refl)
    as (_ & _ & Hboth).
  exact (Hboth eq_refl eq_refl).
Defined.

(** ** What the construction does to the page *)

Section Construction.
Context `{UserCode}.



End Construction.
